(** * An observable cell ([Atom<T>]) and its subscription handles

    Shallow embedding of [src/atom.h].  The header defines two class
    templates: [Atom<T>], a value cell with a registry of listeners, and
    [Subscription<T>], the scoped handle that removes a listener again.

    Modelling choices, all of them read off the header:

    - objects live in a store.  Cells are found through [shared_ptr] /
      [weak_ptr], so a cell is a location [loc] in [atoms]; a destroyed
      cell is absent from the map and [weak_ptr::lock] is a lookup.
      Handles are move-only objects compared by address
      ([this != &other]), so a handle is an address [addr] in [handles];
    - [uint64_t] identifiers are [N] with the wrap-around of [next_id_++]
      written out;
    - [std::unordered_map] is a [gmap]; its iteration order is unspecified
      and is a parameter ([iteration]);
    - listeners, the error handler and the updater are client code.  The
      cell only ever *calls* them, so the cell's operations are written
      against two arbitrary functions [invoke] and [invoke_sink] that say
      what a call does to the store.  Every theorem of the generic section
      therefore holds for every client behaviour, including listeners that
      subscribe, unsubscribe or write while they are being notified;
    - the mutex is not modelled: the development is about sequential
      executions, where each locked region runs as one step. *)

From stdpp Require Import gmap list option strings.

Local Open Scope N_scope.

(** ** Identifiers and objects *)

(** [uint64_t] arithmetic: [next_id_++] wraps at [2^64]. *)
Definition uint64_modulus : N := 2 ^ 64.

Definition uint64_succ (n : N) : N := (n + 1) mod uint64_modulus.

(** Locations of cells (control blocks) and addresses of handle objects. *)
Definition loc := nat.
Definition addr := nat.

(** [class Subscription]: a weak reference to the owning cell and the
    identifier of the listener.  [owner_ = None] is the empty
    [weak_ptr]; [owner_ = Some a] with [a] no longer in the store is an
    expired one. *)
Record Subscription := mkSubscription {
  owner_ : option loc;
  id_ : N
}.

(** The iteration order of [std::unordered_map] is unspecified: any
    enumeration of the entries may be the one a range-[for] follows. *)
Record iteration (A : Type) := mkIteration {
  order : gmap N A → list (N * A);
  order_perm : ∀ m, order m ≡ₚ map_to_list m
}.
Arguments order {A} _ _.
Arguments order_perm {A} _ _.

Section Cell.

(** [T] is the observed type, [exn] what [std::exception_ptr] can
    hold, [code] the listeners ([std::function<void(const T&)>]) and
    [sink] the error handlers
    ([std::function<void(std::exception_ptr)>]). *)
Context {T exn code sink : Type}.

(** [std::equality_comparable<T>]: [Some eqb] when [T] has [==]
    (then [eqb x y] is [x == y]), [None] otherwise.  The header
    branches on it with [if constexpr]. *)
Variable eqT : option (T → T → bool).

Variable bucket_order : iteration code.

(** [class Atom].  [on_error_] is a [std::function], which may be
    empty: [None]. *)
Record Atom := mkAtom {
  value_ : T;
  listeners_ : gmap N code;
  next_id_ : N;
  on_error_ : option sink
}.

Record world := mkWorld {
  atoms : gmap loc Atom;
  handles : gmap addr Subscription;
  next_loc : loc
}.

(** How a call into client code ends: it returns, it throws, or it
    yields no result at all (it never comes back, or it was made on an
    object that no longer exists). *)
Inductive outcome :=
| Returned
| Threw (e : exn)
| NoResult.

(** What a call of the cell did, as seen from the cell: a listener was
    called with a value, or the error handler with a captured
    exception; both with the way the call ended. *)
Inductive event :=
| Called (id : N) (cb : code) (v : T) (o : outcome)
| Sunk (s : sink) (e : exn) (o : outcome).

Record result := mkResult {
  res_outcome : outcome;
  res_world : world;
  res_log : list event
}.

(** Client code: what calling a listener, or the error handler, does. *)
Variable invoke : code → T → world → outcome * world.
Variable invoke_sink : sink → exn → world → outcome * world.

Definition with_atoms (m : gmap loc Atom) (w : world) : world :=
  mkWorld m (handles w) (next_loc w).

Definition with_handles (h : gmap addr Subscription) (w : world) : world :=
  mkWorld (atoms w) h (next_loc w).

Definition logged (evs : list event) (r : result) : result :=
  mkResult (res_outcome r) (res_world r) (evs ++ res_log r).

(** ** [Atom] *)

(** [createAtom]: [make_shared] of a cell with an empty registry and
    [next_id_{0}].  Control blocks are never reused, so the location
    is taken from a counter. *)
Definition createAtom (initial : T) (onError : option sink) (w : world)
  : loc * world :=
  let a := next_loc w in
  (a, mkWorld (<[a := mkAtom initial ∅ 0 onError]> (atoms w))
              (handles w) (S a)).

(** The last [shared_ptr] to the cell goes away. *)
Definition destroyAtom (a : loc) (w : world) : world :=
  with_atoms (delete a (atoms w)) w.

(** [T get() const]. *)
Definition get (a : loc) (w : world) : option T :=
  value_ <$> atoms w !! a.

(** [if constexpr (std::equality_comparable<T>) if (value == value_) return;] *)
Definition skip_equal (value current : T) : bool :=
  match eqT with
  | Some eqb => eqb value current
  | None => false
  end.

(** [value_ = std::move(value)] (or the copy, when [T] is not
    move-assignable: the stored value is the same). *)
Definition store (value : T) (this : Atom) : Atom :=
  mkAtom value (listeners_ this) (next_id_ this) (on_error_ this).

(** [notify]: the body of the range-[for], over the entries in
    iteration order.  An exception of the listener is caught
    ([catch (...)]); the handler, when there is one, is called inside
    the [catch] block and is not itself guarded. *)
Fixpoint notify_loop (on_error : option sink) (entries : list (N * code))
    (value : T) (w : world) : result :=
  match entries with
  | [] => mkResult Returned w []
  | (id, cb) :: rest =>
      match invoke cb value w with
      | (Returned, w1) =>
          logged [Called id cb value Returned]
                 (notify_loop on_error rest value w1)
      | (Threw e, w1) =>
          match on_error with
          | None =>
              logged [Called id cb value (Threw e)]
                     (notify_loop on_error rest value w1)
          | Some s =>
              match invoke_sink s e w1 with
              | (Returned, w2) =>
                  logged [Called id cb value (Threw e); Sunk s e Returned]
                         (notify_loop on_error rest value w2)
              | (o, w2) =>
                  mkResult o w2 [Called id cb value (Threw e); Sunk s e o]
              end
          end
      | (NoResult, w1) => mkResult NoResult w1 [Called id cb value NoResult]
      end
  end.

Definition notify (on_error : option sink) (snapshot : gmap N code)
    (value : T) (w : world) : result :=
  notify_loop on_error (order bucket_order snapshot) value w.

(** [void set(T value)]. *)
Definition set (a : loc) (value : T) (w : world) : result :=
  match atoms w !! a with
  | None => mkResult NoResult w []
  | Some this =>
      if skip_equal value (value_ this) then mkResult Returned w []
      else
        let this' := store value this in
        let snapshot := listeners_ this' in
        let snapshotValue := value_ this' in
        notify (on_error_ this') snapshot snapshotValue
               (with_atoms (<[a := this']> (atoms w)) w)
  end.

(** [void update(std::function<T(const T&)> updater)].  The updater
    runs under the lock, where it cannot reach the cell again; it is a
    function of the current value that returns the next one ([inr]) or
    throws ([inl]). *)
Definition update (a : loc) (updater : T → exn + T) (w : world) : result :=
  match atoms w !! a with
  | None => mkResult NoResult w []
  | Some this =>
      match updater (value_ this) with
      | inl e => mkResult (Threw e) w []
      | inr newValue =>
          if skip_equal newValue (value_ this) then mkResult Returned w []
          else
            let this' := store newValue this in
            let snapshot := listeners_ this' in
            let snapshotValue := value_ this' in
            notify (on_error_ this') snapshot snapshotValue
                   (with_atoms (<[a := this']> (atoms w)) w)
      end
  end.

(** [Subscription<T> subscribe(callback)]: the returned handle is
    constructed in the storage [ret] the caller provides, which must
    be free. *)
Definition subscribe (a : loc) (callback : code) (ret : addr) (w : world)
  : option world :=
  match atoms w !! a, handles w !! ret with
  | Some this, None =>
      let id := next_id_ this in
      let this' := mkAtom (value_ this) (<[id := callback]> (listeners_ this))
                          (uint64_succ id) (on_error_ this) in
      Some (mkWorld (<[a := this']> (atoms w))
                    (<[ret := mkSubscription (Some a) id]> (handles w))
                    (next_loc w))
  | _, _ => None
  end.

(** ** [Subscription] *)

(** [atom->listeners_.erase(id)]: erasing an absent key does nothing. *)
Definition erase (id : N) (atom : Atom) : Atom :=
  mkAtom (value_ atom) (delete id (listeners_ atom))
         (next_id_ atom) (on_error_ atom).

(** [if (auto atom = owner_.lock()) atom->listeners_.erase(id_);] *)
Definition erase_listener (s : Subscription) (w : world) : world :=
  match owner_ s with
  | None => w
  | Some a =>
      match atoms w !! a with
      | None => w
      | Some atom => with_atoms (<[a := erase (id_ s) atom]> (atoms w)) w
      end
  end.

(** [Subscription(std::weak_ptr<Atom<T>> owner, uint64_t id)], in free
    storage [this]. *)
Definition construct (this : addr) (owner : option loc) (id : N) (w : world)
  : option world :=
  match handles w !! this with
  | None => Some (with_handles (<[this := mkSubscription owner id]> (handles w)) w)
  | Some _ => None
  end.

(** [~Subscription()]: erase, then the object is gone. *)
Definition destroy (this : addr) (w : world) : option world :=
  match handles w !! this with
  | None => None
  | Some s =>
      let w1 := erase_listener s w in
      Some (with_handles (delete this (handles w1)) w1)
  end.

(** [Subscription(Subscription&& other)], in free storage [this].
    Moving a [weak_ptr] leaves the source empty. *)
Definition move_construct (this other : addr) (w : world) : option world :=
  match handles w !! this, handles w !! other with
  | None, Some o =>
      Some (with_handles
              (<[other := mkSubscription None 0]>
                 (<[this := mkSubscription (owner_ o) (id_ o)]> (handles w))) w)
  | _, _ => None
  end.

(** [void unsubscribe()]: erase, then [owner_.reset()]. *)
Definition unsubscribe (this : addr) (w : world) : option world :=
  match handles w !! this with
  | None => None
  | Some s =>
      let w1 := erase_listener s w in
      Some (with_handles (<[this := mkSubscription None (id_ s)]> (handles w1)) w1)
  end.

(** [Subscription& operator=(Subscription&& other)]. *)
Definition move_assign (this other : addr) (w : world) : option world :=
  match handles w !! this, handles w !! other with
  | Some s, Some o =>
      if decide (this = other) then Some w
      else
        let w1 := erase_listener s w in
        Some (with_handles
                (<[other := mkSubscription None 0]>
                   (<[this := mkSubscription (owner_ o) (id_ o)]> (handles w1))) w1)
  | _, _ => None
  end.

(** ** Requests and traces

    [set] and [update] differ only in where the proposed value comes
    from; a request is either of the two calls. *)
Inductive request :=
| Assign (value : T)
| Modify (updater : T → exn + T).

Definition perform (a : loc) (rq : request) (w : world) : result :=
  match rq with
  | Assign value => set a value w
  | Modify updater => update a updater w
  end.

(** The value a request proposes, given the current one. *)
Definition proposed (rq : request) (current : T) : exn + T :=
  match rq with
  | Assign value => inr value
  | Modify updater => updater current
  end.

(** A request is accepted with value [v] when it proposes [v] and the
    equality rule does not filter it. *)
Definition accepted (rq : request) (this : Atom) (v : T) : Prop :=
  proposed rq (value_ this) = inr v ∧ skip_equal v (value_ this) = false.

(** Straight-line client code [rq1; rq2; ...] on one cell: a call that
    does not return normally ends the sequence. *)
Fixpoint perform_seq (a : loc) (rqs : list request) (w : world) : result :=
  match rqs with
  | [] => mkResult Returned w []
  | rq :: rest =>
      let r := perform a rq w in
      match res_outcome r with
      | Returned => logged (res_log r) (perform_seq a rest (res_world r))
      | _ => r
      end
  end.

(** The calls a trace holds for the listener registered under [id]. *)
Definition calls_of (id : N) (log : list event) : list (code * T) :=
  omap (λ ev, match ev with
              | Called j cb v _ => if decide (j = id) then Some (cb, v) else None
              | Sunk _ _ _ => None
              end) log.

(** The listener failures of a trace, and the calls of the handler. *)
Definition failures (log : list event) : list exn :=
  omap (λ ev, match ev with
              | Called _ _ _ (Threw e) => Some e
              | _ => None
              end) log.

Definition sunk (log : list event) : list (sink * exn) :=
  omap (λ ev, match ev with
              | Sunk s e _ => Some (s, e)
              | Called _ _ _ _ => None
              end) log.

(** Every handler call of the trace returned normally and every
    listener call came back (returned or threw). *)
Definition came_back (ev : event) : bool :=
  match ev with
  | Called _ _ _ NoResult => false
  | Called _ _ _ _ => true
  | Sunk _ _ Returned => true
  | Sunk _ _ _ => false
  end.

Definition undisturbed (log : list event) : bool := forallb came_back log.

(** The registry of cell [a], when the cell exists. *)
Definition registry (a : loc) (w : world) : option (gmap N code) :=
  listeners_ <$> atoms w !! a.

(** Listener [id] is not registered with cell [a]. *)
Definition unregistered (a : loc) (id : N) (w : world) : Prop :=
  ∀ this, atoms w !! a = Some this → listeners_ this !! id = None.

(** The ways a handle at address [p] gets into the released state: it is
    constructed as a placeholder (with an empty [weak_ptr]), it is the
    source of a move construction or of a move assignment, or
    [unsubscribe] was called on it. *)
Inductive released : addr → world → Prop :=
| released_placeholder p id w w' :
    construct p None id w = Some w' → released p w'
| released_moved_from p q w w' :
    move_construct q p w = Some w' → released p w'
| released_assigned_from p q w w' :
    q ≠ p → move_assign q p w = Some w' → released p w'
| released_explicitly p w w' :
    unsubscribe p w = Some w' → released p w'.

(** ** Bookkeeping between handles and registries *)

(** The handle at [p] is bound to listener [i] of cell [a]. *)
Definition bound (w : world) (p : addr) (a : loc) (i : N) : Prop :=
  handles w !! p = Some (mkSubscription (Some a) i).

(** A store in which handles and registries agree: cells and the
    references of handles are below the allocation counter, registered
    identifiers are below the identifier counter of their cell, every
    registered listener is held by a handle, every handle bound to a
    live cell has its listener registered, and no two handles are bound
    to the same listener. *)
Record tidy (w : world) : Prop := mkTidy {
  tidy_cells : ∀ a, is_Some (atoms w !! a) → (a < next_loc w)%nat;
  tidy_owner : ∀ p a i, bound w p a i → (a < next_loc w)%nat;
  tidy_ids : ∀ a this i,
    atoms w !! a = Some this → is_Some (listeners_ this !! i) →
    i < next_id_ this;
  tidy_held : ∀ a this i,
    atoms w !! a = Some this → is_Some (listeners_ this !! i) →
    ∃ p, bound w p a i;
  tidy_live : ∀ p a i this,
    bound w p a i → atoms w !! a = Some this →
    is_Some (listeners_ this !! i);
  tidy_unique : ∀ p q a i, bound w p a i → bound w q a i → p = q
}.

(** The values a sequence of requests stores, starting from [current]:
    a request whose proposed value compares equal to the current one
    stores nothing, and an updater that throws ends the sequence. *)
Fixpoint changes (current : T) (rqs : list request) : list T :=
  match rqs with
  | [] => []
  | rq :: rest =>
      match proposed rq current with
      | inl _ => []
      | inr v =>
          if skip_equal v current then changes current rest
          else v :: changes v rest
      end
  end.

End Cell.

Arguments Atom : clear implicits.
Arguments world : clear implicits.
Arguments outcome : clear implicits.
Arguments event : clear implicits.
Arguments result : clear implicits.
Arguments request : clear implicits.

(** ** Iteration orders *)

(** The enumeration stdpp gives, and the same backwards. *)
Definition forward_order {A : Type} : iteration A :=
  mkIteration A map_to_list (λ m, reflexivity (map_to_list m)).

Definition backward_order {A : Type} : iteration A :=
  mkIteration A (λ m, reverse (map_to_list m))
              (λ m, reverse_Permutation (map_to_list m)).

(** Storage for one more handle: an address above all those in use. *)
Definition free_addr {T code sink : Type} (w : world T code sink) : addr :=
  map_fold (λ p _ top, max (S p) top) 0%nat (handles w).

(** ** Clients whose listeners do not reach the store

    A listener that only looks at the value it is given (and may throw),
    with a handler that swallows what it is handed. *)
Module Plain.

Definition listener := Z → option string.

Definition state := world Z listener unit.

Definition call (c : listener) (v : Z) (w : state) : outcome string * state :=
  match c v with
  | None => (Returned, w)
  | Some what => (Threw what, w)
  end.

Definition call_sink (s : unit) (e : string) (w : state)
  : outcome string * state :=
  (Returned, w).

Definition empty : state := mkWorld ∅ ∅ 0%nat.

(** A listener that accepts everything, and one that rejects negative
    values. *)
Definition quiet : listener := λ _, None.

Definition picky : listener :=
  λ v, if (v <? 0)%Z then Some "negative"%string else None.

(** [createAtom<int>(10, handler)] with [quiet] and [picky] subscribed,
    their handles at addresses 1 and 2. *)
Definition counter : state :=
  let w := (createAtom 10%Z (Some ()) empty).2 in
  let w := default w (subscribe 0%nat quiet 1%nat w) in
  default w (subscribe 0%nat picky 2%nat w).

Definition counter_atom : Atom Z listener unit :=
  mkAtom 10%Z (<[1 := picky]> (<[0 := quiet]> ∅)) 2 (Some ()).

(** [counter] after [Subscription moved(std::move(first))], the new
    handle at address 3. *)
Definition counter_moved : state :=
  default counter (move_construct 3%nat 1%nat counter).

(** A cell that has handed out all identifiers but the last, and still
    has the listener registered under 0, held by the handle at 1. *)
Definition weary : state :=
  mkWorld {[ 0%nat := mkAtom 10%Z {[ 0 := quiet ]} (uint64_modulus - 1) (Some ()) ]}
          {[ 1%nat := mkSubscription (Some 0%nat) 0 ]} 1%nat.

Definition weary_atom : Atom Z listener unit :=
  mkAtom 10%Z {[ 0 := quiet ]} (uint64_modulus - 1) (Some ()).

(** [set(5); set(5); update(v + 10)]. *)
Definition errands : list (request Z string) :=
  [Assign 5%Z; Assign 5%Z; Modify (λ v, inr (v + 10)%Z)].

(** An updater that fails on zero. *)
Definition reciprocal : Z → string + Z :=
  λ v, if (v =? 0)%Z then inl "division by zero"%string else inr (100 / v)%Z.

End Plain.

(** ** A value type with a coarse [==]

    A record with a key and a payload whose [operator==] compares the
    keys only.  The listeners play no part. *)
Module Keyed.

Definition entry := (Z * Z)%type.

Definition same_key (x y : entry) : bool := (x.1 =? y.1)%Z.

Definition state := world entry unit unit.

Definition call (c : unit) (v : entry) (w : state) : outcome unit * state :=
  (Returned, w).

Definition call_sink (s : unit) (e : unit) (w : state) : outcome unit * state :=
  (Returned, w).

(** [createAtom(entry{0, 0}, {})] in an empty store. *)
Definition fresh_cell : state :=
  (createAtom (0, 0)%Z None (mkWorld ∅ ∅ 0%nat)).2.

Definition touch : entry → entry := λ x, (x.1, x.2 + 1)%Z.

Definition rekey : entry → entry := λ x, (x.2, x.2).

End Keyed.

(** ** Scripted clients

    Listeners and handlers written in a small command language, so that
    they can re-enter the cell: subscribe, unsubscribe and write from
    inside a notification.  A nested write dispatches in turn, which need
    not end; [run] is indexed by the nesting depth it may use. *)
Module Scripted.

(** What a [throw] can carry: an object derived from
    [std::exception], or anything else. *)
Inductive failure :=
| StdException (what : string)
| Foreign (n : Z).

(** [Subscribe a cb] keeps the handle it gets in storage of its own
    ([free_addr]); [Unsubscribe p] releases the handle at [p]. *)
Inductive script :=
| Skip
| Raise (e : failure)
| Then (s1 s2 : script)
| Subscribe (a : loc) (cb : script)
| Unsubscribe (p : addr)
| SetTo (a : loc) (v : Z).

Definition handler := failure → script.

Definition state := world Z script handler.

Fixpoint run (ord : iteration script) (depth : nat)
  : script → state → outcome failure * state :=
  fix go (s : script) (w : state) : outcome failure * state :=
    match s with
    | Skip => (Returned, w)
    | Raise e => (Threw e, w)
    | Then s1 s2 =>
        match go s1 w with
        | (Returned, w1) => go s2 w1
        | other => other
        end
    | Subscribe a cb =>
        match subscribe a cb (free_addr w) w with
        | Some w1 => (Returned, w1)
        | None => (NoResult, w)
        end
    | Unsubscribe p =>
        match unsubscribe p w with
        | Some w1 => (Returned, w1)
        | None => (NoResult, w)
        end
    | SetTo a v =>
        match depth with
        | O => (NoResult, w)
        | S depth' =>
            let r := set (Some Z.eqb) ord
                         (λ cb _ w', run ord depth' cb w')
                         (λ h e w', run ord depth' (h e) w') a v w in
            (res_outcome r, res_world r)
        end
    end.

Definition call (depth : nat) (cb : script) (v : Z) (w : state)
  : outcome failure * state :=
  run forward_order depth cb w.

Definition call_sink (depth : nat) (h : handler) (e : failure) (w : state)
  : outcome failure * state :=
  run forward_order depth (h e) w.

(** The handler of [tests.cpp]: rethrow the captured exception and
    catch it as [const std::exception&]; anything else escapes. *)
Definition testErrorHandler : handler :=
  λ e, match e with
       | StdException _ => Skip
       | Foreign _ => Raise e
       end.

Definition empty : state := mkWorld ∅ ∅ 0%nat.

(** [createAtom<int>(0, testErrorHandler)] with the given listeners
    subscribed in turn. *)
Definition cell_with (cbs : list script) : state :=
  foldl (λ w cb, default w (subscribe 0%nat cb (free_addr w) w))
        (createAtom 0%Z (Some testErrorHandler) empty).2 cbs.





(** A passive listener, subscribed first, and one that throws. *)
Definition boom : script := Raise (StdException "boom").

Definition fragile : state := cell_with [Skip; boom].

Definition fragile_atom : Atom Z script handler :=
  mkAtom 0%Z (<[1 := boom]> (<[0 := Skip]> ∅)) 2 (Some testErrorHandler).

(** The same with a listener that throws something that is not a
    [std::exception]. *)
Definition alien : script := Raise (Foreign 42).

Definition hostile : state := cell_with [Skip; alien].

Definition hostile_atom : Atom Z script handler :=
  mkAtom 0%Z (<[1 := alien]> (<[0 := Skip]> ∅)) 2 (Some testErrorHandler).

End Scripted.

(** * Properties of the cell, for every client behaviour *)

Section Facts.

Context {T exn code sink : Type}.
Variable eqT : option (T → T → bool).
Variable bucket_order : iteration code.
Variable invoke : code → T → world T code sink → outcome exn * world T code sink.
Variable invoke_sink : sink → exn → world T code sink → outcome exn * world T code sink.

Local Abbreviation notify_loop := (notify_loop invoke invoke_sink).
Local Abbreviation notify := (notify bucket_order invoke invoke_sink).
Local Abbreviation set := (set eqT bucket_order invoke invoke_sink).
Local Abbreviation update := (update eqT bucket_order invoke invoke_sink).
Local Abbreviation perform := (perform eqT bucket_order invoke invoke_sink).
Local Abbreviation perform_seq := (perform_seq eqT bucket_order invoke invoke_sink).
Local Abbreviation accepted := (accepted eqT).
Local Abbreviation world := (world T code sink).
Local Abbreviation event := (event T exn code sink).

Implicit Types (w : world) (a : loc) (v : T) (id : N) (cb : code).
Implicit Types (log : list event).

(** ** Traces *)

Lemma calls_of_app id log1 log2 :
  calls_of id (log1 ++ log2) = calls_of id log1 ++ calls_of id log2.
Proof. apply omap_app. Qed.

(** ** One dispatch *)

(** An accepted request is the store followed by the dispatch over the
    registry as it is at the store. *)
Lemma perform_accepted a rq w this v :
  atoms w !! a = Some this →
  accepted rq this v →
  perform a rq w =
    notify (on_error_ this) (listeners_ this) v
           (with_atoms (<[a := store v this]> (atoms w)) w).
Proof.
  intros Ha [Hprop Hskip]. destruct rq as [value|updater]; simpl in *.
  - injection Hprop as ->. unfold set. by rewrite Ha, Hskip.
  - unfold update. by rewrite Ha, Hprop, Hskip.
Qed.

(** A listener that is not among the entries is not called. *)
Lemma notify_loop_skips oe (l : list (N * code)) v w id :
  id ∉ l.*1 → calls_of id (res_log (notify_loop oe l v w)) = [].
Proof.
  revert w. induction l as [|[j cb] l IH]; intros w Hid; [done|].
  apply not_elem_of_cons in Hid as [Hne Hid]. simpl in Hne.
  assert (j ≠ id) as Hji by congruence.
  simpl. destruct (invoke cb v w) as [[|e|] w1]; simpl.
  - rewrite decide_False by done. by apply IH.
  - destruct oe as [s|].
    + destruct (invoke_sink s e w1) as [[|e'|] w2]; simpl;
        rewrite decide_False by done; [by apply IH|done|done].
    + simpl. rewrite decide_False by done. by apply IH.
  - by rewrite decide_False.
Qed.

(** A dispatch that returns has called every entry, once, with the
    value of the dispatch. *)
Lemma notify_loop_calls oe (l : list (N * code)) v w id cb :
  NoDup l.*1 →
  res_outcome (notify_loop oe l v w) = Returned →
  (id, cb) ∈ l →
  calls_of id (res_log (notify_loop oe l v w)) = [(cb, v)].
Proof.
  revert w. induction l as [|[j c] l IH]; intros w Hnd Hret Hin.
  { by apply elem_of_nil in Hin. }
  apply NoDup_cons in Hnd as [Hj Hnd]. simpl in Hj.
  assert (∀ w', calls_of id (res_log (notify_loop oe l v w')) =
                  if decide (j = id) then []
                  else calls_of id (res_log (notify_loop oe l v w'))) as Hrest.
  { intros w'. case_decide as Hji; [|done]. subst j.
    by apply notify_loop_skips. }
  assert (∀ w', res_outcome (notify_loop oe l v w') = Returned →
                calls_of id (res_log (notify_loop oe l v w')) =
                  if decide (j = id) then [] else [(cb, v)]) as Htail.
  { intros w' Hret'. rewrite Hrest. case_decide as Hji; [done|].
    apply IH; [done|done|]. apply elem_of_cons in Hin as [Heq|Hin]; [|done].
    congruence. }
  assert (j = id → c = cb) as Hhead.
  { intros ->. apply elem_of_cons in Hin as [Heq|Hin]; [congruence|].
    exfalso. apply Hj. apply list_elem_of_fmap. by exists (id, cb). }
  simpl in *. destruct (invoke c v w) as [[|e|] w1]; simpl in *.
  - rewrite (Htail w1 Hret). case_decide; [by rewrite Hhead|done].
  - destruct oe as [s|].
    + destruct (invoke_sink s e w1) as [[|e'|] w2]; simpl in *; try done.
      rewrite (Htail w2 Hret). case_decide; [by rewrite Hhead|done].
    + simpl in *. rewrite (Htail w1 Hret). case_decide; [by rewrite Hhead|done].
  - done.
Qed.


(** Nothing but a handler that fails, or a listener that does not come
    back, ends a dispatch early. *)
Lemma notify_loop_returns oe (l : list (N * code)) v w :
  undisturbed (res_log (notify_loop oe l v w)) = true →
  res_outcome (notify_loop oe l v w) = Returned.
Proof.
  revert w. induction l as [|[j c] l IH]; intros w; [done|].
  simpl. destruct (invoke c v w) as [[|e|] w1]; simpl; [by apply IH| |done].
  destruct oe as [s|]; [|by apply IH].
  destruct (invoke_sink s e w1) as [[|e'|] w2]; simpl; [by apply IH|done|done].
Qed.

(** The handler is called once for each failure, with that failure. *)
Lemma notify_loop_sunk oe (l : list (N * code)) v w :
  sunk (res_log (notify_loop oe l v w)) =
    match oe with
    | Some s => (λ e, (s, e)) <$> failures (res_log (notify_loop oe l v w))
    | None => []
    end.
Proof.
  revert w. induction l as [|[j c] l IH]; intros w; [by destruct oe|].
  simpl. destruct (invoke c v w) as [[|e|] w1]; simpl.
  - apply IH.
  - destruct oe as [s|]; [|apply (IH w1)].
    destruct (invoke_sink s e w1) as [[|e'|] w2]; simpl; [|done|done].
    f_equal. apply (IH w2).
  - by destruct oe.
Qed.

Lemma order_NoDup (m : gmap N code) : NoDup (order bucket_order m).*1.
Proof. rewrite (order_perm bucket_order m). apply NoDup_fst_map_to_list. Qed.

Lemma order_elem_of (m : gmap N code) id cb :
  (id, cb) ∈ order bucket_order m ↔ m !! id = Some cb.
Proof. rewrite (order_perm bucket_order m). apply elem_of_map_to_list. Qed.

Lemma order_not_elem_of (m : gmap N code) id :
  m !! id = None → id ∉ (order bucket_order m).*1.
Proof.
  intros Hnone Hin. apply list_elem_of_fmap in Hin as [[j cb] [-> Hin]].
  apply order_elem_of in Hin. simpl in *. congruence.
Qed.

(** What a dispatch leaves of the store is what the client code it
    called leaves: a property of the store that the listeners and the
    handler keep is kept by the dispatch. *)
Lemma notify_loop_preserves (P : world → Prop) oe (l : list (N * code)) v w :
  (∀ c x w', P w' → P (invoke c x w').2) →
  (∀ s e w', P w' → P (invoke_sink s e w').2) →
  P w → P (res_world (notify_loop oe l v w)).
Proof.
  intros Hcb Hsink. revert w. induction l as [|[j c] l IH]; intros w Hw; [done|].
  simpl. pose proof (Hcb c v w Hw) as Hw1.
  destruct (invoke c v w) as [[|e|] w1]; simpl in *; [by apply IH| |done].
  destruct oe as [s|]; [|by apply IH].
  pose proof (Hsink s e w1 Hw1) as Hw2.
  destruct (invoke_sink s e w1) as [[|e'|] w2]; simpl in *; [by apply IH|done|done].
Qed.

(** ** Accepted changes *)


(** C2 (skip on equal).  When [T] has [==] and the proposed value of a
    [set] or [update] compares equal to the current one, the call returns
    with the store as it was (value, registry and identifier counter
    included) and without having called anything. *)
Theorem skip_on_equal eqb a rq w this v :
  eqT = Some eqb →
  atoms w !! a = Some this →
  proposed rq (value_ this) = inr v →
  eqb v (value_ this) = true →
  perform a rq w = mkResult Returned w [].
Proof.
  intros HeqT Ha Hprop Heq.
  assert (skip_equal eqT v (value_ this) = true) as Hskip.
  { unfold skip_equal. by rewrite HeqT. }
  destruct rq as [value|updater]; simpl in *.
  - injection Hprop as ->. unfold set. by rewrite Ha, Hskip.
  - unfold update. by rewrite Ha, Hprop, Hskip.
Qed.

(** C3, as the code has it (failure isolation).  In every accepted
    [set] or [update] the handler, when the cell has one, is called once
    per listener failure, with that failure and in order; without a
    handler nothing is called for a failure.  When moreover every call
    of the handler returned and every listener came back, by returning
    or by throwing, the call returns normally to its caller and every
    listener of the snapshot was called exactly once with the stored
    value, the failing ones included. *)
Theorem observer_failures_are_isolated a rq w this v :
  atoms w !! a = Some this →
  accepted rq this v →
  sunk (res_log (perform a rq w)) =
    match on_error_ this with
    | Some s => (λ e, (s, e)) <$> failures (res_log (perform a rq w))
    | None => []
    end
  ∧ (undisturbed (res_log (perform a rq w)) = true →
     res_outcome (perform a rq w) = Returned
     ∧ ∀ id cb, listeners_ this !! id = Some cb →
                calls_of id (res_log (perform a rq w)) = [(cb, v)]).
Proof.
  intros Ha Hacc. rewrite (perform_accepted a rq w this v Ha Hacc).
  unfold notify. split; [apply notify_loop_sunk|].
  intros Hlog. pose proof (notify_loop_returns _ _ _ _ Hlog) as Hret.
  split; [done|].
  intros id cb Hid. apply notify_loop_calls; [apply order_NoDup|done|].
  by apply order_elem_of.
Qed.

(** C4 (updater failure).  When the updater throws on the current value,
    [update] ends with that exception, the store is as it was and
    nothing was called. *)
Theorem updater_failure_leaves_cell_unmodified a updater w this e :
  atoms w !! a = Some this →
  updater (value_ this) = inl e →
  update a updater w = mkResult (Threw e) w [].
Proof.
  intros Ha Hthrow. unfold update. by rewrite Ha, Hthrow.
Qed.

(** ** Sequences of requests *)

Lemma get_stored a v this w :
  get a (with_atoms (<[a := store v this]> (atoms w)) w) = Some v.
Proof. unfold get; simpl. by rewrite lookup_insert_eq. Qed.

(** One [update] with a total updater, when equality is identity and
    the clients leave the value of the cell alone. *)
Lemma update_value a (f : T → T) w this :
  (∀ eqb x y, eqT = Some eqb → eqb x y = true → x = y) →
  (∀ c x w', get a (invoke c x w').2 = get a w') →
  (∀ s e w', get a (invoke_sink s e w').2 = get a w') →
  atoms w !! a = Some this →
  get a (res_world (update a (λ x, inr (f x)) w)) = Some (f (value_ this)).
Proof.
  intros Hlaw Hcb Hsink Ha. unfold update. rewrite Ha.
  destruct (skip_equal eqT (f (value_ this)) (value_ this)) eqn:Hskip.
  - simpl. unfold get. rewrite Ha. simpl. f_equal.
    unfold skip_equal in Hskip. destruct eqT as [eqb|] eqn:HeqT; [|done].
    symmetry. by eapply Hlaw.
  - simpl. unfold notify.
    apply (notify_loop_preserves (λ w', get a w' = Some (f (value_ this)))).
    + intros c x w' Hw'. by rewrite Hcb.
    + intros s e w' Hw'. by rewrite Hsink.
    + apply get_stored.
Qed.

(** C5, as the code has it (update composition).  Let [T] either lack
    [==] or have an [==] that holds only between identical values, and
    let the listeners and the handler leave the value of cell [a] alone
    (no intervening writes).  Then after a sequence of [update] calls
    with total updaters [f1 ... fn] that all returned, [get] gives
    [fn (... (f1 v0))], where [v0] is the value the cell had. *)
Theorem update_composition a (fs : list (T → T)) w this :
  (∀ eqb x y, eqT = Some eqb → eqb x y = true → x = y) →
  (∀ c x w', get a (invoke c x w').2 = get a w') →
  (∀ s e w', get a (invoke_sink s e w').2 = get a w') →
  atoms w !! a = Some this →
  res_outcome (perform_seq a ((λ f, Modify (λ x, inr (f x))) <$> fs) w) = Returned →
  get a (res_world (perform_seq a ((λ f, Modify (λ x, inr (f x))) <$> fs) w))
    = Some (foldl (λ x f, f x) (value_ this) fs).
Proof.
  intros Hlaw Hcb Hsink. revert w this.
  induction fs as [|f fs IH]; intros w this Ha Hret; simpl in *.
  { unfold get. by rewrite Ha. }
  pose proof (update_value a f w this Hlaw Hcb Hsink Ha) as Hstep.
  destruct (res_outcome (update a (λ x, inr (f x)) w)) eqn:Hout; simpl in *;
    [|by rewrite Hout in Hret..].
  unfold get in Hstep.
  destruct (atoms (res_world (update a (λ x, inr (f x)) w)) !! a)
    as [this'|] eqn:Ha'; [|done].
  injection Hstep as Hv. rewrite <- Hv. by apply IH.
Qed.

(** A request on a cell that does not have listener [i] registered does
    not call it, and leaves it unregistered when the clients do. *)
Lemma perform_unregistered a i rq w :
  (∀ c x w', unregistered a i w' → unregistered a i (invoke c x w').2) →
  (∀ s e w', unregistered a i w' → unregistered a i (invoke_sink s e w').2) →
  unregistered a i w →
  calls_of i (res_log (perform a rq w)) = []
  ∧ unregistered a i (res_world (perform a rq w)).
Proof.
  intros Hcb Hsink Hw.
  destruct (atoms w !! a) as [this|] eqn:Ha.
  2:{ destruct rq; simpl; unfold set, update; by rewrite Ha. }
  destruct (proposed rq (value_ this)) as [e|v] eqn:Hprop.
  { destruct rq as [value|updater]; simpl in *; [done|].
    unfold update. by rewrite Ha, Hprop. }
  destruct (skip_equal eqT v (value_ this)) eqn:Hskip.
  { destruct rq as [value|updater]; simpl in *.
    - injection Hprop as ->. unfold set. by rewrite Ha, Hskip.
    - unfold update. by rewrite Ha, Hprop, Hskip. }
  rewrite (perform_accepted a rq w this v Ha (conj Hprop Hskip)).
  unfold notify. split.
  - apply notify_loop_skips. apply order_not_elem_of. by apply Hw.
  - apply notify_loop_preserves; [done|done|].
    intros this'. simpl. rewrite lookup_insert_eq. intros [= <-]. simpl.
    by apply Hw.
Qed.

Lemma perform_seq_unregistered a i rqs w :
  (∀ c x w', unregistered a i w' → unregistered a i (invoke c x w').2) →
  (∀ s e w', unregistered a i w' → unregistered a i (invoke_sink s e w').2) →
  unregistered a i w →
  calls_of i (res_log (perform_seq a rqs w)) = [].
Proof.
  intros Hcb Hsink. revert w. induction rqs as [|rq rqs IH]; intros w Hw; [done|].
  simpl. destruct (perform_unregistered a i rq w Hcb Hsink Hw) as [Hcalls Hw'].
  destruct (res_outcome (perform a rq w)); simpl; [|done..].
  rewrite calls_of_app, Hcalls. simpl. by apply IH.
Qed.

(** ** Subscription handles *)

(** A handle whose [weak_ptr] is empty, or whose cell is gone, erases
    nothing: [lock] fails. *)
Lemma erase_listener_unlocked (s : Subscription) w :
  (∀ a, owner_ s = Some a → atoms w !! a = None) →
  erase_listener s w = w.
Proof.
  intros Hlock. unfold erase_listener. destruct (owner_ s) as [a|]; [|done].
  by rewrite (Hlock a).
Qed.

Lemma erase_listener_live (s : Subscription) w a this :
  owner_ s = Some a → atoms w !! a = Some this →
  atoms (erase_listener s w) = <[a := erase (id_ s) this]> (atoms w).
Proof. intros Ho Ha. unfold erase_listener. by rewrite Ho, Ha. Qed.

Lemma unregistered_erased a i this w m :
  atoms w = <[a := erase i this]> m → unregistered a i w.
Proof.
  intros Hw this'. rewrite Hw, lookup_insert_eq. intros [= <-]. simpl.
  apply lookup_delete_eq.
Qed.

(** C6 (scope release).  Let the handle at [p] be bound to listener [i]
    of the live cell [a].  Both [unsubscribe] and the destructor
    succeed; each leaves the cells as they were except that [i] is
    erased from the registry of [a] (the two leave the same cells); and
    in whatever sequence of [set] and [update] calls follows on [a],
    with clients that do not register [i] again, listener [i] is never
    called. *)
Theorem release_unregisters p a i w this :
  handles w !! p = Some (mkSubscription (Some a) i) →
  atoms w !! a = Some this →
  (∀ c x w', unregistered a i w' → unregistered a i (invoke c x w').2) →
  (∀ s e w', unregistered a i w' → unregistered a i (invoke_sink s e w').2) →
  ∃ w1 w2,
    unsubscribe p w = Some w1 ∧ destroy p w = Some w2
    ∧ atoms w1 = <[a := erase i this]> (atoms w)
    ∧ atoms w2 = atoms w1
    ∧ ∀ rqs, calls_of i (res_log (perform_seq a rqs w1)) = []
             ∧ calls_of i (res_log (perform_seq a rqs w2)) = [].
Proof.
  intros Hp Ha Hcb Hsink. unfold unsubscribe, destroy. rewrite Hp.
  eexists _, _. split; [done|]. split; [done|].
  pose proof (erase_listener_live (mkSubscription (Some a) i) w a this
                eq_refl Ha) as Herased. simpl in *.
  split; [done|]. split; [done|].
  intros rqs. split; apply perform_seq_unregistered; try done;
    by eapply unregistered_erased.
Qed.

(** C7 (move uniqueness).  Let holder [A] be bound to listener [i] of
    the live cell [a] and let [B] be free storage.  Move-constructing
    [B] from [A] leaves the cells alone, leaves [A] with an empty
    reference and identifier 0, and binds [B] to [(a, i)].  Afterwards
    [unsubscribe] and the destructor on [A] leave the cells alone,
    listener [i] included; [unsubscribe] on [B] takes [i], and nothing
    but [i], out of the registry of [a], and a second one changes
    nothing.  And move-assigning any other handle [q] into the bound
    holder [A] takes [i], and nothing but [i], out of the registry of
    [a], gives [A] the reference and identifier [q] had, and leaves [q]
    with an empty reference and identifier 0. *)
Theorem move_uniqueness A B a i w this :
  handles w !! A = Some (mkSubscription (Some a) i) →
  handles w !! B = None →
  atoms w !! a = Some this →
  (∃ w1, move_construct B A w = Some w1
     ∧ atoms w1 = atoms w
     ∧ handles w1 !! A = Some (mkSubscription None 0)
     ∧ handles w1 !! B = Some (mkSubscription (Some a) i)
     ∧ (∃ w2, unsubscribe A w1 = Some w2 ∧ atoms w2 = atoms w
          ∧ registry a w2 = Some (listeners_ this))
     ∧ (∃ w2, destroy A w1 = Some w2 ∧ atoms w2 = atoms w
          ∧ registry a w2 = Some (listeners_ this))
     ∧ (∃ w2, unsubscribe B w1 = Some w2
          ∧ atoms w2 = <[a := mkAtom (value_ this) (delete i (listeners_ this))
                                     (next_id_ this) (on_error_ this)]>
                         (atoms w)
          ∧ registry a w2 ≫= (.!! i) = None
          ∧ (∀ j, j ≠ i → registry a w2 ≫= (.!! j) = listeners_ this !! j)
          ∧ unsubscribe B w2 = Some w2))
  ∧ (∀ q o, q ≠ A → handles w !! q = Some o →
       ∃ w1, move_assign A q w = Some w1
         ∧ atoms w1 = <[a := mkAtom (value_ this) (delete i (listeners_ this))
                                    (next_id_ this) (on_error_ this)]>
                        (atoms w)
         ∧ registry a w1 ≫= (.!! i) = None
         ∧ (∀ j, j ≠ i → registry a w1 ≫= (.!! j) = listeners_ this !! j)
         ∧ handles w1 !! A = Some (mkSubscription (owner_ o) (id_ o))
         ∧ handles w1 !! q = Some (mkSubscription None 0)).
Proof.
  intros HA HB Ha.
  assert (A ≠ B) as HAB by congruence.
  split.
  - unfold move_construct. rewrite HB, HA. eexists. split; [done|]. simpl.
    split; [done|]. split; [by rewrite lookup_insert_eq|].
    split; [by rewrite lookup_insert_ne, lookup_insert_eq|].
    split; [|split].
    + unfold unsubscribe. simpl. rewrite lookup_insert_eq.
      eexists. split; [done|]. split; [done|].
      unfold registry. simpl. by rewrite Ha.
    + unfold destroy. simpl. rewrite lookup_insert_eq.
      eexists. split; [done|]. split; [done|].
      unfold registry. simpl. by rewrite Ha.
    + unfold unsubscribe at 1. simpl.
      rewrite lookup_insert_ne, lookup_insert_eq by done.
      unfold erase_listener, erase. simpl. rewrite Ha.
      eexists. split; [done|]. split; [done|].
      unfold registry. simpl. rewrite lookup_insert_eq. simpl.
      split; [apply lookup_delete_eq|].
      split; [intros j Hj; by apply lookup_delete_ne|].
      unfold unsubscribe. simpl. rewrite lookup_insert_eq. simpl.
      unfold with_handles. simpl. by rewrite insert_insert_eq.
  - intros q o Hq Ho. unfold move_assign. rewrite HA, Ho.
    rewrite decide_False by done.
    unfold erase_listener, erase. simpl. rewrite Ha. simpl.
    eexists. split; [done|]. simpl. split; [done|].
    unfold registry. simpl. rewrite lookup_insert_eq. simpl.
    split; [apply lookup_delete_eq|].
    split; [intros j Hj; by apply lookup_delete_ne|].
    split; [by rewrite lookup_insert_ne, lookup_insert_eq|].
    by rewrite lookup_insert_eq.
Qed.

(** Erasing the listener of a handle leaves every other registration,
    of this cell and of the others, as it was. *)
Lemma erase_listener_others (s : Subscription) w a j :
  j ≠ id_ s →
  registry a (erase_listener s w) ≫= (.!! j) = registry a w ≫= (.!! j).
Proof.
  intros Hj. unfold erase_listener, registry.
  destruct (owner_ s) as [b|]; [|done].
  destruct (atoms w !! b) as [atom|] eqn:Hb; [|done]. simpl.
  destruct (decide (b = a)) as [->|Hne].
  - rewrite lookup_insert_eq, Hb. simpl. by rewrite lookup_delete_ne.
  - by rewrite lookup_insert_ne.
Qed.

(** C8 (released-handle operation).  [unsubscribe] on a handle object
    always returns, and a second [unsubscribe] after it changes nothing
    at all; neither does destroying the handle afterwards change any
    cell.  A release never touches a registration other than the
    handle's own.  And when the handle is already released (empty
    reference) or its cell is destroyed, [unsubscribe] and the
    destructor leave every cell exactly as it was. *)
Theorem release_is_idempotent p s w :
  handles w !! p = Some s →
  ∃ w1, unsubscribe p w = Some w1
    ∧ unsubscribe p w1 = Some w1
    ∧ (∃ w2, destroy p w1 = Some w2 ∧ atoms w2 = atoms w1)
    ∧ (∀ a j, j ≠ id_ s →
              registry a w1 ≫= (.!! j) = registry a w ≫= (.!! j))
    ∧ ((∀ a, owner_ s = Some a → atoms w !! a = None) →
       atoms w1 = atoms w
       ∧ ∃ w2, destroy p w = Some w2 ∧ atoms w2 = atoms w).
Proof.
  intros Hp. unfold unsubscribe at 1. rewrite Hp. eexists. split; [done|].
  split; [|split; [|split]].
  - unfold unsubscribe. simpl. rewrite lookup_insert_eq. simpl.
    unfold with_handles. simpl. by rewrite insert_insert_eq.
  - unfold destroy. simpl. rewrite lookup_insert_eq. by eexists.
  - intros a j Hj. by apply erase_listener_others.
  - intros Hlock. rewrite (erase_listener_unlocked s w Hlock).
    split; [done|]. unfold destroy. rewrite Hp.
    rewrite (erase_listener_unlocked s w Hlock). by eexists.
Qed.

(** C10 (inert handles).  A handle in the released state, however it got
    there, holds an empty reference.  [unsubscribe], the destructor and
    being the target of a move assignment all succeed on it and leave
    every cell as it was; in particular a listener registered under
    identifier 0 stays registered, although 0 is also what a moved-from
    handle holds, and 0 is the identifier the first [subscribe] on a
    new cell hands out. *)
Theorem inert_handles_do_not_erase p w :
  released p w →
  (∃ s, handles w !! p = Some s ∧ owner_ s = None)
  ∧ (∃ w', unsubscribe p w = Some w' ∧ atoms w' = atoms w)
  ∧ (∃ w', destroy p w = Some w' ∧ atoms w' = atoms w)
  ∧ (∀ q o, q ≠ p → handles w !! q = Some o →
       ∃ w', move_assign p q w = Some w' ∧ atoms w' = atoms w)
  ∧ (∀ a this cb w', atoms w !! a = Some this → listeners_ this !! 0 = Some cb →
       unsubscribe p w = Some w' ∨ destroy p w = Some w'
       ∨ (∃ q, q ≠ p ∧ move_assign p q w = Some w') →
       registry a w' ≫= (.!! 0) = Some cb)
  ∧ (∀ (initial : T) (onError : option sink) w0 cb ret,
       handles w0 !! ret = None →
       ∃ w1, subscribe (createAtom initial onError w0).1 cb ret
                       (createAtom initial onError w0).2 = Some w1
         ∧ handles w1 !! ret
             = Some (mkSubscription (Some (createAtom initial onError w0).1) 0)).
Proof.
  intros Hrel.
  assert (∃ s, handles w !! p = Some s ∧ owner_ s = None) as (s & Hp & Hs).
  { destruct Hrel as [p id w w' H|p q w w' H|p q w w' Hne H|p w w' H].
    - unfold construct in H. destruct (handles w !! p); [done|].
      injection H as <-. simpl. rewrite lookup_insert_eq. by eexists.
    - unfold move_construct in H.
      destruct (handles w !! q); [done|]. destruct (handles w !! p); [|done].
      injection H as <-. simpl. rewrite lookup_insert_eq. by eexists.
    - unfold move_assign in H.
      destruct (handles w !! q); [|done]. destruct (handles w !! p); [|done].
      rewrite decide_False in H by done.
      injection H as <-. simpl. rewrite lookup_insert_eq. by eexists.
    - unfold unsubscribe in H. destruct (handles w !! p); [|done].
      injection H as <-. simpl. rewrite lookup_insert_eq. by eexists. }
  assert (erase_listener s w = w) as Hnop.
  { apply erase_listener_unlocked. intros a. by rewrite Hs. }
  assert (∃ w', unsubscribe p w = Some w' ∧ atoms w' = atoms w) as Hunsub.
  { unfold unsubscribe. rewrite Hp, Hnop. by eexists. }
  assert (∃ w', destroy p w = Some w' ∧ atoms w' = atoms w) as Hdestroy.
  { unfold destroy. rewrite Hp, Hnop. by eexists. }
  assert (∀ q o, q ≠ p → handles w !! q = Some o →
            ∃ w', move_assign p q w = Some w' ∧ atoms w' = atoms w) as Hassign.
  { intros q o Hq Ho. unfold move_assign. rewrite Hp, Ho.
    rewrite decide_False by done. rewrite Hnop. by eexists. }
  split; [by exists s|]. split; [done|]. split; [done|]. split; [done|]. split.
  - intros a this cb w' Ha Hcb Hop.
    assert (atoms w' = atoms w) as Hsame.
    { destruct Hop as [H|[H|(q & Hq & H)]].
      - destruct Hunsub as (w'' & H' & Hat). congruence.
      - destruct Hdestroy as (w'' & H' & Hat). congruence.
      - unfold move_assign in H. rewrite Hp in H.
        destruct (handles w !! q) as [o|] eqn:Ho; [|done].
        destruct (Hassign q o Hq Ho) as (w'' & H' & Hat).
        unfold move_assign in H'. rewrite Hp, Ho in H'. congruence. }
    unfold registry. rewrite Hsame, Ha. done.
  - intros initial onError w0 cb ret Hret. unfold subscribe, createAtom. simpl.
    rewrite lookup_insert_eq, Hret. eexists. split; [done|]. simpl.
    by rewrite lookup_insert_eq.
Qed.

End Facts.

(** * The properties at work on concrete clients *)

(** ** The scenarios of the test suite *)

(** [set(5); set(5); update(v + 10)] on a cell that starts at 0: the
    listener receives 5 and 15, and the cell holds 15. *)
Example scenario_values_received :
  ∃ w1,
    subscribe 0%nat Plain.quiet 1%nat (createAtom 0%Z (Some ()) Plain.empty).2
      = Some w1
    ∧ calls_of 0
        (res_log (perform_seq (Some Z.eqb) forward_order Plain.call
                    Plain.call_sink 0%nat
                    [Assign 5%Z; Assign 5%Z; Modify (λ v, inr (v + 10)%Z)] w1))
        = [(Plain.quiet, 5%Z); (Plain.quiet, 15%Z)]
    ∧ get 0%nat
        (res_world (perform_seq (Some Z.eqb) forward_order Plain.call
                      Plain.call_sink 0%nat
                      [Assign 5%Z; Assign 5%Z; Modify (λ v, inr (v + 10)%Z)] w1))
        = Some 15%Z.
Proof. eexists. repeat split; vm_compute; reflexivity. Qed.

(** A second listener lives in a nested scope: both see 3, only the
    first sees 10, and after it is released nobody sees 1. *)
Example scenario_scoped_subscription :
  ∃ w1 w2 w3 w4,
    subscribe 0%nat Plain.quiet 1%nat (createAtom 0%Z (Some ()) Plain.empty).2
      = Some w1
    ∧ subscribe 0%nat Plain.picky 2%nat w1 = Some w2
    ∧ res_log (set (Some Z.eqb) forward_order Plain.call Plain.call_sink
                   0%nat 3%Z w2)
        = [Called 1 Plain.picky 3%Z Returned; Called 0 Plain.quiet 3%Z Returned]
    ∧ destroy 2%nat (res_world (set (Some Z.eqb) forward_order Plain.call
                                    Plain.call_sink 0%nat 3%Z w2)) = Some w3
    ∧ res_log (set (Some Z.eqb) forward_order Plain.call Plain.call_sink
                   0%nat 10%Z w3)
        = [Called 0 Plain.quiet 10%Z Returned]
    ∧ unsubscribe 1%nat (res_world (set (Some Z.eqb) forward_order Plain.call
                                        Plain.call_sink 0%nat 10%Z w3)) = Some w4
    ∧ res_log (set (Some Z.eqb) forward_order Plain.call Plain.call_sink
                   0%nat 1%Z w4) = []
    ∧ get 0%nat (res_world (set (Some Z.eqb) forward_order Plain.call
                                Plain.call_sink 0%nat 1%Z w4)) = Some 1%Z.
Proof. eexists _, _, _, _. repeat split; vm_compute; reflexivity. Qed.

(** The order of the calls is the iteration order, and nothing else
    depends on it: backwards, the same listeners get the same calls. *)
Example scenario_either_order :
  res_log (set (Some Z.eqb) forward_order Plain.call Plain.call_sink
               0%nat 3%Z Plain.counter)
    = [Called 1 Plain.picky 3%Z Returned; Called 0 Plain.quiet 3%Z Returned]
  ∧ res_log (set (Some Z.eqb) backward_order Plain.call Plain.call_sink
                 0%nat 3%Z Plain.counter)
      = [Called 0 Plain.quiet 3%Z Returned; Called 1 Plain.picky 3%Z Returned].
Proof. split; vm_compute; reflexivity. Qed.

(** A placeholder handle takes over a subscription ([sub =
    atom->subscribe(cb)]: a temporary is move-assigned and destroyed),
    the cell dies, and the handle is destroyed after it. *)
Example scenario_handle_outlives_cell :
  ∃ w1 w2 w3 w4 w5,
    construct 1%nat None 0 Plain.empty = Some w1
    ∧ subscribe 0%nat Plain.quiet 2%nat (createAtom 0%Z (Some ()) w1).2 = Some w2
    ∧ move_assign 1%nat 2%nat w2 = Some w3
    ∧ destroy 2%nat w3 = Some w4
    ∧ registry 0%nat w4 = Some {[ 0 := Plain.quiet ]}
    ∧ destroy 1%nat (destroyAtom 0%nat w4) = Some w5
    ∧ atoms w5 = ∅ ∧ handles w5 = ∅.
Proof. eexists _, _, _, _, _. repeat split; vm_compute; reflexivity. Qed.



(** C2 on the [counter] cell, which holds 10: [set(10)] does nothing. *)
Lemma skip_on_equal_witness :
  Some Z.eqb = Some Z.eqb
  ∧ atoms Plain.counter !! 0%nat = Some Plain.counter_atom
  ∧ proposed (Assign 10%Z : request Z string) (value_ Plain.counter_atom)
      = inr 10%Z
  ∧ (10 =? value_ Plain.counter_atom)%Z = true
  ∧ perform (Some Z.eqb) forward_order Plain.call Plain.call_sink 0%nat
            (Assign 10%Z) Plain.counter
      = mkResult Returned Plain.counter [].
Proof.
  assert (atoms Plain.counter !! 0%nat = Some Plain.counter_atom) as H2
    by (vm_compute; reflexivity).
  split; [reflexivity|]. split; [exact H2|].
  split; [reflexivity|]. split; [reflexivity|].
  exact (skip_on_equal (Some Z.eqb) forward_order Plain.call Plain.call_sink
           Z.eqb 0%nat (Assign 10%Z) Plain.counter Plain.counter_atom 10%Z
           eq_refl H2 eq_refl eq_refl).
Defined.

(** C3 as claimed fails on the [hostile] cell.  The listener registered
    second throws something that is not a [std::exception]; the handler
    of [tests.cpp] rethrows it; the exception leaves [set], and the
    passive listener, which is in the snapshot, is never called. *)
Lemma observer_failure_escapes_through_handler :
  registry 0%nat Scripted.hostile ≫= (.!! 0) = Some Scripted.Skip
  ∧ registry 0%nat Scripted.hostile ≫= (.!! 1) = Some Scripted.alien
  ∧ failures (res_log (set (Some Z.eqb) forward_order (Scripted.call 3)
                           (Scripted.call_sink 3) 0%nat 5%Z Scripted.hostile))
      = [Scripted.Foreign 42]
  ∧ calls_of 0 (res_log (set (Some Z.eqb) forward_order (Scripted.call 3)
                             (Scripted.call_sink 3) 0%nat 5%Z Scripted.hostile))
      = []
  ∧ res_outcome (set (Some Z.eqb) forward_order (Scripted.call 3)
                     (Scripted.call_sink 3) 0%nat 5%Z Scripted.hostile)
      = Threw (Scripted.Foreign 42).
Proof. vm_compute. repeat split; reflexivity. Qed.

(** C3 as the code has it, on the [fragile] cell: the listener that
    throws ["boom"] is called, the handler receives ["boom"] once, the
    passive listener is called with the value, and [set] returns. *)
Lemma observer_failures_are_isolated_witness :
  atoms Scripted.fragile !! 0%nat = Some Scripted.fragile_atom
  ∧ accepted (Some Z.eqb) (Assign 10%Z : request Z Scripted.failure)
             Scripted.fragile_atom 10%Z
  ∧ failures (res_log (perform (Some Z.eqb) forward_order (Scripted.call 3)
                         (Scripted.call_sink 3) 0%nat (Assign 10%Z)
                         Scripted.fragile))
      = [Scripted.StdException "boom"]
  ∧ sunk (res_log (perform (Some Z.eqb) forward_order (Scripted.call 3)
                     (Scripted.call_sink 3) 0%nat (Assign 10%Z)
                     Scripted.fragile))
      = [(Scripted.testErrorHandler, Scripted.StdException "boom")]
  ∧ res_outcome (perform (Some Z.eqb) forward_order (Scripted.call 3)
                   (Scripted.call_sink 3) 0%nat (Assign 10%Z)
                   Scripted.fragile) = Returned
  ∧ ∀ id cb, listeners_ Scripted.fragile_atom !! id = Some cb →
      calls_of id (res_log (perform (Some Z.eqb) forward_order
                              (Scripted.call 3) (Scripted.call_sink 3)
                              0%nat (Assign 10%Z) Scripted.fragile))
        = [(cb, 10%Z)].
Proof.
  assert (atoms Scripted.fragile !! 0%nat = Some Scripted.fragile_atom) as H1
    by (vm_compute; reflexivity).
  assert (accepted (Some Z.eqb) (Assign 10%Z : request Z Scripted.failure)
            Scripted.fragile_atom 10%Z) as H2
    by (split; reflexivity).
  assert (failures
            (res_log (perform (Some Z.eqb) forward_order (Scripted.call 3)
                        (Scripted.call_sink 3) 0%nat (Assign 10%Z)
                        Scripted.fragile))
            = [Scripted.StdException "boom"]) as H3
    by (vm_compute; reflexivity).
  split; [exact H1|]. split; [exact H2|]. split; [exact H3|].
  destruct (observer_failures_are_isolated (Some Z.eqb) forward_order
              (Scripted.call 3) (Scripted.call_sink 3) 0%nat (Assign 10%Z)
              Scripted.fragile Scripted.fragile_atom 10%Z H1 H2)
    as [Hsunk Hrest].
  split; [rewrite Hsunk, H3; reflexivity|].
  apply Hrest. vm_compute; reflexivity.
Defined.

(** C4 on the [counter] cell after it was set to 0: the updater fails,
    and [update] passes the failure on and changes nothing. *)
Lemma updater_failure_leaves_cell_unmodified_witness :
  atoms (with_atoms (<[0%nat := store 0%Z Plain.counter_atom]>
                       (atoms Plain.counter)) Plain.counter) !! 0%nat
    = Some (store 0%Z Plain.counter_atom)
  ∧ Plain.reciprocal (value_ (store 0%Z Plain.counter_atom))
      = inl "division by zero"%string
  ∧ update (Some Z.eqb) forward_order Plain.call Plain.call_sink 0%nat
           Plain.reciprocal
           (with_atoms (<[0%nat := store 0%Z Plain.counter_atom]>
                          (atoms Plain.counter)) Plain.counter)
      = mkResult (Threw "division by zero"%string)
                 (with_atoms (<[0%nat := store 0%Z Plain.counter_atom]>
                                (atoms Plain.counter)) Plain.counter) [].
Proof.
  assert (atoms (with_atoms (<[0%nat := store 0%Z Plain.counter_atom]>
                               (atoms Plain.counter)) Plain.counter) !! 0%nat
            = Some (store 0%Z Plain.counter_atom)) as H1
    by (vm_compute; reflexivity).
  split; [exact H1|]. split; [reflexivity|].
  exact (updater_failure_leaves_cell_unmodified (Some Z.eqb) forward_order
           Plain.call Plain.call_sink 0%nat Plain.reciprocal _ _
           "division by zero"%string H1 eq_refl).
Defined.

(** C5 as claimed fails for a type whose [==] is coarser than identity.
    The cell is constructed with [(0, 0)] and has no listeners.
    [update(touch)] proposes [(0, 1)], which compares equal to [(0, 0)]
    and is dropped; [update(rekey)] then sees [(0, 0)] and proposes
    [(0, 0)].  The cell ends with [(0, 0)], the composition gives
    [(1, 1)], and the two do not even compare equal. *)
Lemma coarse_equality_breaks_composition :
  get 0%nat Keyed.fresh_cell = Some (0, 0)%Z
  ∧ res_outcome
      (perform_seq (Some Keyed.same_key) forward_order Keyed.call
                   Keyed.call_sink 0%nat
                   ((λ f, Modify (λ x, inr (f x))) <$> [Keyed.touch; Keyed.rekey])
                   Keyed.fresh_cell) = Returned
  ∧ get 0%nat
      (res_world
         (perform_seq (Some Keyed.same_key) forward_order Keyed.call
                      Keyed.call_sink 0%nat
                      ((λ f, Modify (λ x, inr (f x))) <$> [Keyed.touch; Keyed.rekey])
                      Keyed.fresh_cell)) = Some (0, 0)%Z
  ∧ foldl (λ x f, f x) (0, 0)%Z [Keyed.touch; Keyed.rekey] = (1, 1)%Z
  ∧ Keyed.same_key (0, 0)%Z (1, 1)%Z = false.
Proof. vm_compute. repeat split; reflexivity. Qed.

(** C5 as the code has it, on the [counter] cell ([int], whose [==] is
    identity; the listeners do not write): after [update(succ)] and
    [update(double)] the cell holds [double (succ 10)]. *)
Lemma update_composition_witness :
  (∀ eqb x y, Some Z.eqb = Some eqb → eqb x y = true → x = y)
  ∧ (∀ c x w', get 0%nat (Plain.call c x w').2 = get 0%nat w')
  ∧ (∀ s e w', get 0%nat (Plain.call_sink s e w').2 = get 0%nat w')
  ∧ atoms Plain.counter !! 0%nat = Some Plain.counter_atom
  ∧ res_outcome
      (perform_seq (Some Z.eqb) forward_order Plain.call Plain.call_sink 0%nat
                   ((λ f, Modify (λ x, inr (f x))) <$> [Z.succ; Z.double])
                   Plain.counter) = Returned
  ∧ get 0%nat
      (res_world
         (perform_seq (Some Z.eqb) forward_order Plain.call Plain.call_sink
                      0%nat
                      ((λ f, Modify (λ x, inr (f x))) <$> [Z.succ; Z.double])
                      Plain.counter))
      = Some (foldl (λ x f, f x) (value_ Plain.counter_atom) [Z.succ; Z.double]).
Proof.
  assert (∀ eqb x y, Some Z.eqb = Some eqb → eqb x y = true → x = y) as H1.
  { intros eqb x y [= <-]. apply Z.eqb_eq. }
  assert (∀ c x w', get 0%nat (Plain.call c x w').2 = get 0%nat w') as H2.
  { intros c x w'. unfold Plain.call. destruct (c x); reflexivity. }
  assert (∀ s e w', get 0%nat (Plain.call_sink s e w').2 = get 0%nat w') as H3.
  { intros s e w'. reflexivity. }
  assert (atoms Plain.counter !! 0%nat = Some Plain.counter_atom) as H4
    by (vm_compute; reflexivity).
  assert (res_outcome
            (perform_seq (Some Z.eqb) forward_order Plain.call Plain.call_sink
                         0%nat
                         ((λ f, Modify (λ x, inr (f x))) <$> [Z.succ; Z.double])
                         Plain.counter) = Returned) as H5
    by (vm_compute; reflexivity).
  split; [exact H1|]. split; [exact H2|]. split; [exact H3|].
  split; [exact H4|]. split; [exact H5|].
  exact (update_composition (Some Z.eqb) forward_order Plain.call
           Plain.call_sink 0%nat [Z.succ; Z.double] Plain.counter
           Plain.counter_atom H1 H2 H3 H4 H5).
Defined.

(** C6 on the [counter] cell: the handle at address 1 is bound to the
    listener registered under 0. *)
Lemma release_unregisters_witness :
  handles Plain.counter !! 1%nat = Some (mkSubscription (Some 0%nat) 0)
  ∧ atoms Plain.counter !! 0%nat = Some Plain.counter_atom
  ∧ ∃ w1 w2,
      unsubscribe 1%nat Plain.counter = Some w1
      ∧ destroy 1%nat Plain.counter = Some w2
      ∧ atoms w1 = <[0%nat := erase 0 Plain.counter_atom]> (atoms Plain.counter)
      ∧ atoms w2 = atoms w1
      ∧ ∀ rqs,
          calls_of 0 (res_log (perform_seq (Some Z.eqb) forward_order Plain.call
                                 Plain.call_sink 0%nat rqs w1)) = []
          ∧ calls_of 0 (res_log (perform_seq (Some Z.eqb) forward_order
                                   Plain.call Plain.call_sink 0%nat rqs w2)) = [].
Proof.
  assert (handles Plain.counter !! 1%nat = Some (mkSubscription (Some 0%nat) 0))
    as H1 by (vm_compute; reflexivity).
  assert (atoms Plain.counter !! 0%nat = Some Plain.counter_atom) as H2
    by (vm_compute; reflexivity).
  split; [exact H1|]. split; [exact H2|].
  apply (release_unregisters (Some Z.eqb) forward_order Plain.call
           Plain.call_sink 1%nat 0%nat 0 Plain.counter Plain.counter_atom H1 H2).
  - intros c x w' Hw'. unfold Plain.call. destruct (c x); exact Hw'.
  - intros s e w' Hw'. exact Hw'.
Defined.

(** C7 on the [counter] cell: the handle at address 1, bound to listener
    0, is moved into free storage at address 3; and, from the same
    start, the handle at address 2 is move-assigned into it.  The
    second listener stays registered throughout. *)
Lemma move_uniqueness_witness :
  handles Plain.counter !! 1%nat = Some (mkSubscription (Some 0%nat) 0)
  ∧ handles Plain.counter !! 3%nat = None
  ∧ atoms Plain.counter !! 0%nat = Some Plain.counter_atom
  ∧ (∃ w1, move_construct 3%nat 1%nat Plain.counter = Some w1
       ∧ handles w1 !! 1%nat = Some (mkSubscription None 0)
       ∧ handles w1 !! 3%nat = Some (mkSubscription (Some 0%nat) 0)
       ∧ (∃ w2, unsubscribe 1%nat w1 = Some w2
            ∧ registry 0%nat w2 = Some (listeners_ Plain.counter_atom))
       ∧ (∃ w2, destroy 1%nat w1 = Some w2
            ∧ registry 0%nat w2 = Some (listeners_ Plain.counter_atom))
       ∧ (∃ w2, unsubscribe 3%nat w1 = Some w2
            ∧ registry 0%nat w2 ≫= (.!! 0) = None
            ∧ registry 0%nat w2 ≫= (.!! 1) = Some Plain.picky
            ∧ unsubscribe 3%nat w2 = Some w2))
  ∧ (∃ w1, move_assign 1%nat 2%nat Plain.counter = Some w1
       ∧ registry 0%nat w1 ≫= (.!! 0) = None
       ∧ registry 0%nat w1 ≫= (.!! 1) = Some Plain.picky
       ∧ handles w1 !! 1%nat = Some (mkSubscription (Some 0%nat) 1)
       ∧ handles w1 !! 2%nat = Some (mkSubscription None 0)).
Proof.
  assert (handles Plain.counter !! 1%nat = Some (mkSubscription (Some 0%nat) 0))
    as H1 by (vm_compute; reflexivity).
  assert (handles Plain.counter !! 3%nat = None) as H2
    by (vm_compute; reflexivity).
  assert (atoms Plain.counter !! 0%nat = Some Plain.counter_atom) as H3
    by (vm_compute; reflexivity).
  split; [exact H1|]. split; [exact H2|]. split; [exact H3|].
  destruct (move_uniqueness 1%nat 3%nat 0%nat 0 Plain.counter
              Plain.counter_atom H1 H2 H3) as [Hmove Hassign].
  split.
  - destruct Hmove as (w1 & Hw1 & _ & HA & HB & HrelA & HdelA & HrelB).
    exists w1. split; [exact Hw1|]. split; [exact HA|]. split; [exact HB|].
    split; [|split].
    + destruct HrelA as (w2 & Hw2 & _ & Hreg). exists w2. by split.
    + destruct HdelA as (w2 & Hw2 & _ & Hreg). exists w2. by split.
    + destruct HrelB as (w2 & Hw2 & _ & Hgone & Hkept & Hagain).
      exists w2. split; [exact Hw2|]. split; [exact Hgone|].
      split; [|exact Hagain].
      rewrite (Hkept 1); [vm_compute; reflexivity|discriminate].
  - destruct (Hassign 2%nat (mkSubscription (Some 0%nat) 1))
      as (w1 & Hw1 & _ & Hgone & Hkept & HA & Hq).
    + discriminate.
    + vm_compute; reflexivity.
    + exists w1. split; [exact Hw1|]. split; [exact Hgone|].
      split; [|by split].
      rewrite (Hkept 1); [vm_compute; reflexivity|discriminate].
Defined.

(** C8 on the moved-from handle of [counter_moved]. *)
Lemma release_is_idempotent_witness :
  handles Plain.counter_moved !! 1%nat = Some (mkSubscription None 0)
  ∧ ∃ w1, unsubscribe 1%nat Plain.counter_moved = Some w1
      ∧ unsubscribe 1%nat w1 = Some w1
      ∧ (∃ w2, destroy 1%nat w1 = Some w2 ∧ atoms w2 = atoms w1)
      ∧ (∀ a j, j ≠ id_ (mkSubscription None 0) →
           registry a w1 ≫= (.!! j) = registry a Plain.counter_moved ≫= (.!! j))
      ∧ ((∀ a, owner_ (mkSubscription None 0) = Some a →
               atoms Plain.counter_moved !! a = None) →
         atoms w1 = atoms Plain.counter_moved
         ∧ ∃ w2, destroy 1%nat Plain.counter_moved = Some w2
             ∧ atoms w2 = atoms Plain.counter_moved).
Proof.
  assert (handles Plain.counter_moved !! 1%nat = Some (mkSubscription None 0))
    as H1 by (vm_compute; reflexivity).
  split; [exact H1|].
  exact (release_is_idempotent 1%nat (mkSubscription None 0)
           Plain.counter_moved H1).
Defined.

(** C10 on the moved-from handle of [counter_moved]: it holds
    identifier 0, and so does the live handle at address 3, whose
    listener stays registered. *)
Lemma inert_handles_do_not_erase_witness :
  released 1%nat Plain.counter_moved
  ∧ handles Plain.counter_moved !! 1%nat = Some (mkSubscription None 0)
  ∧ handles Plain.counter_moved !! 3%nat = Some (mkSubscription (Some 0%nat) 0)
  ∧ (∃ w', unsubscribe 1%nat Plain.counter_moved = Some w'
       ∧ atoms w' = atoms Plain.counter_moved)
  ∧ (∃ w', destroy 1%nat Plain.counter_moved = Some w'
       ∧ atoms w' = atoms Plain.counter_moved).
Proof.
  assert (released 1%nat Plain.counter_moved) as H1.
  { apply (released_moved_from 1%nat 3%nat Plain.counter).
    vm_compute; reflexivity. }
  split; [exact H1|].
  split; [vm_compute; reflexivity|]. split; [vm_compute; reflexivity|].
  pose proof (inert_handles_do_not_erase (T := Z) 1%nat Plain.counter_moved H1)
    as (_ & Hunsub & Hdestroy & _).
  split; [exact Hunsub|exact Hdestroy].
Defined.

(** * Further properties of the cell *)

Section More.

Context {T exn code sink : Type}.
Variable eqT : option (T → T → bool).
Variable bucket_order : iteration code.
Variable invoke : code → T → world T code sink → outcome exn * world T code sink.
Variable invoke_sink : sink → exn → world T code sink → outcome exn * world T code sink.

Local Abbreviation notify_loop := (notify_loop invoke invoke_sink).
Local Abbreviation notify := (notify bucket_order invoke invoke_sink).
Local Abbreviation set := (set eqT bucket_order invoke invoke_sink).
Local Abbreviation update := (update eqT bucket_order invoke invoke_sink).
Local Abbreviation perform := (perform eqT bucket_order invoke invoke_sink).
Local Abbreviation perform_seq := (perform_seq eqT bucket_order invoke invoke_sink).
Local Abbreviation accepted := (accepted eqT).
Local Abbreviation changes := (changes eqT).
Local Abbreviation world := (world T code sink).
Local Abbreviation event := (event T exn code sink).

Implicit Types (w : world) (a : loc) (v : T) (id : N) (cb : code).
Implicit Types (p q : addr) (log : list event).

(** ** What a request does, case by case *)

Lemma perform_dead a rq w :
  atoms w !! a = None → perform a rq w = mkResult NoResult w [].
Proof. intros Ha. destruct rq; simpl; unfold set, update; by rewrite Ha. Qed.

Lemma perform_threw a rq w this e :
  atoms w !! a = Some this → proposed rq (value_ this) = inl e →
  perform a rq w = mkResult (Threw e) w [].
Proof.
  intros Ha Hprop. destruct rq as [value|updater]; simpl in *; [done|].
  unfold update. by rewrite Ha, Hprop.
Qed.

Lemma perform_skipped a rq w this v :
  atoms w !! a = Some this → proposed rq (value_ this) = inr v →
  skip_equal eqT v (value_ this) = true →
  perform a rq w = mkResult Returned w [].
Proof.
  intros Ha Hprop Hskip. destruct rq as [value|updater]; simpl in *.
  - injection Hprop as ->. unfold set. by rewrite Ha, Hskip.
  - unfold update. by rewrite Ha, Hprop, Hskip.
Qed.


(** ** Exceptions that leave a dispatch *)

(** An exception leaves the loop only from the handler, called with the
    failure of the listener called just before it; and the handler's
    call is then the last thing the loop did. *)
Lemma notify_loop_threw oe (l : list (N * code)) v w e :
  res_outcome (notify_loop oe l v w) = Threw e →
  ∃ s id cb e0 pre,
    oe = Some s ∧ (id, cb) ∈ l
    ∧ res_log (notify_loop oe l v w)
        = pre ++ [Called id cb v (Threw e0); Sunk s e0 (Threw e)].
Proof.
  revert w. induction l as [|[j c] l IH]; intros w; [done|].
  simpl. destruct (invoke c v w) as [[|e1|] w1]; simpl.
  - intros Hthrew.
    destruct (IH w1 Hthrew) as (s & id & cb & e0 & pre & -> & Hin & Hlog).
    exists s, id, cb, e0, (Called j c v Returned :: pre).
    split; [done|]. split; [by apply list_elem_of_further|]. by rewrite Hlog.
  - destruct oe as [s|].
    + destruct (invoke_sink s e1 w1) as [[|e2|] w2]; simpl.
      * intros Hthrew.
        destruct (IH w2 Hthrew) as (s' & id & cb & e0 & pre & Hs & Hin & Hlog).
        exists s', id, cb, e0,
          (Called j c v (Threw e1) :: Sunk s e1 Returned :: pre).
        split; [done|]. split; [by apply list_elem_of_further|]. by rewrite Hlog.
      * intros [= ->]. exists s, j, c, e1, [].
        split; [done|]. split; [apply list_elem_of_here|done].
      * done.
    + simpl. intros Hthrew.
      destruct (IH w1 Hthrew) as (s & ? & ? & ? & ? & ? & ?). done.
  - done.
Qed.

(** X1 (exceptions that leave [notify]).  When [notify] ends with an
    exception, the cell has a handler, and the last two things [notify]
    did were to call a listener of the snapshot, which threw, and to
    call the handler with what the listener threw, which threw the
    exception that leaves.  So a listener's own exception never leaves
    [notify], and without a handler nothing does. *)
Theorem notify_throws_only_from_the_handler oe (snapshot : gmap N code) v w e :
  res_outcome (notify oe snapshot v w) = Threw e →
  ∃ s id cb e0 pre,
    oe = Some s ∧ snapshot !! id = Some cb
    ∧ res_log (notify oe snapshot v w)
        = pre ++ [Called id cb v (Threw e0); Sunk s e0 (Threw e)].
Proof.
  unfold notify. intros Hthrew.
  destruct (notify_loop_threw oe (order bucket_order snapshot) v w e Hthrew)
    as (s & id & cb & e0 & pre & Hs & Hin & Hlog).
  exists s, id, cb, e0, pre. split; [done|]. split; [|done].
  by apply (order_elem_of bucket_order).
Qed.

(** ** Writes seen through [get] and through a listener *)

(** X2 (write visibility).  On a live cell whose listeners and handler
    leave its value alone, [get] after [set(v)] gives [v], except when
    [v] compared equal to the value the cell held: then it gives that
    held value. *)
Theorem get_after_set a v w this :
  (∀ c x w', get a (invoke c x w').2 = get a w') →
  (∀ s e w', get a (invoke_sink s e w').2 = get a w') →
  atoms w !! a = Some this →
  get a (res_world (set a v w))
    = Some (if skip_equal eqT v (value_ this) then value_ this else v).
Proof.
  intros Hcb Hsink Ha. unfold set. rewrite Ha.
  destruct (skip_equal eqT v (value_ this)); simpl.
  - unfold get. by rewrite Ha.
  - unfold notify.
    apply (notify_loop_preserves invoke invoke_sink (λ w', get a w' = Some v)).
    + intros c x w' Hw'. by rewrite Hcb.
    + intros s e w' Hw'. by rewrite Hsink.
    + apply get_stored.
Qed.

(** A dispatch to clients that leave the store alone, come back, and
    whose handler returns: it returns, with the store as it was. *)
Lemma notify_loop_neutral oe (l : list (N * code)) v w :
  (∀ c x w', (invoke c x w').2 = w' ∧ (invoke c x w').1 ≠ NoResult) →
  (∀ s e w', invoke_sink s e w' = (Returned, w')) →
  res_outcome (notify_loop oe l v w) = Returned
  ∧ res_world (notify_loop oe l v w) = w.
Proof.
  intros Hcb Hsink. induction l as [|[j c] l IH]; [done|].
  simpl. destruct (Hcb c v w) as [Hw Ho].
  destruct (invoke c v w) as [[|e|] w1]; simpl in *; subst w1; [done| |done].
  destruct oe as [s|]; [|done]. by rewrite Hsink.
Qed.

(** X3 (a listener sees the changes).  Let the clients leave the store
    alone and come back, and the handler return.  Over any straight-line
    sequence of [set] and [update] calls on a live cell, a listener that
    is registered receives exactly the values the sequence stores
    ([changes]), once each and in order; and [get] afterwards gives the
    last of them, or the initial value when nothing was stored. *)
Theorem listener_sees_the_changes a rqs w this id cb :
  (∀ c x w', (invoke c x w').2 = w' ∧ (invoke c x w').1 ≠ NoResult) →
  (∀ s e w', invoke_sink s e w' = (Returned, w')) →
  atoms w !! a = Some this →
  listeners_ this !! id = Some cb →
  calls_of id (res_log (perform_seq a rqs w))
    = (λ v, (cb, v)) <$> changes (value_ this) rqs
  ∧ get a (res_world (perform_seq a rqs w))
      = Some (default (value_ this) (last (changes (value_ this) rqs))).
Proof.
  intros Hcb Hsink. revert w this.
  induction rqs as [|rq rqs IH]; intros w this Ha Hid.
  { simpl. unfold get. by rewrite Ha. }
  simpl. destruct (proposed rq (value_ this)) as [e|v] eqn:Hprop.
  { rewrite (perform_threw a rq w this e Ha Hprop). simpl.
    unfold get. by rewrite Ha. }
  destruct (skip_equal eqT v (value_ this)) eqn:Hskip.
  { rewrite (perform_skipped a rq w this v Ha Hprop Hskip). simpl.
    by apply IH. }
  rewrite (perform_accepted eqT bucket_order invoke invoke_sink a rq w this v
             Ha (conj Hprop Hskip)).
  unfold notify.
  destruct (notify_loop_neutral (on_error_ this)
              (order bucket_order (listeners_ this)) v
              (with_atoms (<[a := store v this]> (atoms w)) w) Hcb Hsink)
    as [Hret Hworld].
  rewrite Hret, Hworld. simpl. rewrite calls_of_app.
  rewrite (notify_loop_calls invoke invoke_sink (on_error_ this)
             (order bucket_order (listeners_ this)) v _ id cb
             (order_NoDup bucket_order _) Hret).
  2:{ by apply order_elem_of. }
  destruct (IH (with_atoms (<[a := store v this]> (atoms w)) w) (store v this))
    as [Hcalls Hget].
  { simpl. by rewrite lookup_insert_eq. }
  { done. }
  simpl in *. rewrite Hcalls, Hget. split; [done|].
  f_equal. rewrite last_cons. by destruct (last (changes v rqs)).
Qed.

(** ** Handles and registries agree *)

Lemma uint64_succ_small (n : N) :
  n + 1 < uint64_modulus → uint64_succ n = n + 1.
Proof. intros Hn. unfold uint64_succ. by apply N.mod_small. Qed.

Lemma tidy_empty (n : nat) : tidy (mkWorld ∅ ∅ n : world).
Proof.
  split; unfold bound; simpl.
  - intros a [x Hx]. by rewrite lookup_empty in Hx.
  - intros p a i Hp. by rewrite lookup_empty in Hp.
  - intros a this i Ha. by rewrite lookup_empty in Ha.
  - intros a this i Ha. by rewrite lookup_empty in Ha.
  - intros p a i this Hp. by rewrite lookup_empty in Hp.
  - intros p q a i Hp. by rewrite lookup_empty in Hp.
Qed.

Lemma tidy_createAtom (initial : T) (onError : option sink) w :
  tidy w → tidy (createAtom initial onError w).2.
Proof.
  intros [Hcells Howner Hids Hheld Hlive Huniq].
  split; unfold bound in *; simpl.
  - intros a [x Hx]. destruct (decide (next_loc w = a)) as [<-|Hne]; [lia|].
    rewrite lookup_insert_ne in Hx by done. specialize (Hcells a). 
    assert (a < next_loc w)%nat by (apply Hcells; by eexists). lia.
  - intros p a i Hp. specialize (Howner p a i Hp). lia.
  - intros a this i Ha Hi. destruct (decide (next_loc w = a)) as [<-|Hne].
    + rewrite lookup_insert_eq in Ha. injection Ha as <-. simpl in Hi.
      rewrite lookup_empty in Hi. by destruct Hi.
    + rewrite lookup_insert_ne in Ha by done. by eapply Hids.
  - intros a this i Ha Hi. destruct (decide (next_loc w = a)) as [<-|Hne].
    + rewrite lookup_insert_eq in Ha. injection Ha as <-. simpl in Hi.
      rewrite lookup_empty in Hi. by destruct Hi.
    + rewrite lookup_insert_ne in Ha by done. by eapply Hheld.
  - intros p a i this Hp Ha. destruct (decide (next_loc w = a)) as [<-|Hne].
    + specialize (Howner p _ i Hp). lia.
    + rewrite lookup_insert_ne in Ha by done. by eapply Hlive.
  - done.
Qed.

Lemma tidy_destroyAtom a w : tidy w → tidy (destroyAtom a w).
Proof.
  intros [Hcells Howner Hids Hheld Hlive Huniq].
  split; unfold bound in *; simpl; try done.
  - intros b [x Hx]. apply lookup_delete_Some in Hx as [_ Hx].
    apply Hcells. by eexists.
  - intros b this i Hb. apply lookup_delete_Some in Hb as [_ Hb]. by eapply Hids.
  - intros b this i Hb. apply lookup_delete_Some in Hb as [_ Hb]. by eapply Hheld.
  - intros p b i this Hp Hb. apply lookup_delete_Some in Hb as [_ Hb].
    by eapply Hlive.
Qed.

Lemma tidy_stored a v this w :
  tidy w → atoms w !! a = Some this →
  tidy (with_atoms (<[a := store v this]> (atoms w)) w).
Proof.
  intros [Hcells Howner Hids Hheld Hlive Huniq] Ha.
  split; unfold bound in *; simpl; try done.
  - intros b [x Hx]. apply Hcells. destruct (decide (a = b)) as [<-|Hne].
    + by eexists.
    + rewrite lookup_insert_ne in Hx by done. by eexists.
  - intros b this' i Hb Hi. destruct (decide (a = b)) as [<-|Hne].
    + rewrite lookup_insert_eq in Hb. injection Hb as <-. simpl in *.
      by eapply Hids.
    + rewrite lookup_insert_ne in Hb by done. by eapply Hids.
  - intros b this' i Hb Hi. destruct (decide (a = b)) as [<-|Hne].
    + rewrite lookup_insert_eq in Hb. injection Hb as <-. simpl in *.
      by eapply Hheld.
    + rewrite lookup_insert_ne in Hb by done. by eapply Hheld.
  - intros p b i this' Hp Hb. destruct (decide (a = b)) as [<-|Hne].
    + rewrite lookup_insert_eq in Hb. injection Hb as <-. simpl.
      by eapply Hlive.
    + rewrite lookup_insert_ne in Hb by done. by eapply Hlive.
Qed.

Lemma tidy_subscribe a cb ret w this w' :
  tidy w → atoms w !! a = Some this →
  next_id_ this + 1 < uint64_modulus →
  subscribe a cb ret w = Some w' → tidy w'.
Proof.
  intros [Hcells Howner Hids Hheld Hlive Huniq] Ha Hroom.
  unfold subscribe. rewrite Ha.
  destruct (handles w !! ret) as [?|] eqn:Hret; [done|]. intros [= <-].
  assert (∀ p b i, handles w !! p = Some (mkSubscription (Some b) i) → p ≠ ret)
    as Hfree by (intros p b i Hp ->; congruence).
  split; unfold bound in *; simpl.
  - intros b [x Hx]. apply Hcells. destruct (decide (a = b)) as [<-|Hne].
    + by eexists.
    + rewrite lookup_insert_ne in Hx by done. by eexists.
  - intros p b i Hp. destruct (decide (ret = p)) as [<-|Hne].
    + rewrite lookup_insert_eq in Hp. injection Hp as <- <-.
      apply Hcells. by eexists.
    + rewrite lookup_insert_ne in Hp by done. by eapply Howner.
  - intros b this' i Hb Hi. destruct (decide (a = b)) as [<-|Hne].
    + rewrite lookup_insert_eq in Hb. injection Hb as <-. simpl in *.
      rewrite uint64_succ_small by done.
      destruct (decide (next_id_ this = i)) as [<-|Hni]; [lia|].
      rewrite lookup_insert_ne in Hi by done.
      specialize (Hids a this i Ha Hi). lia.
    + rewrite lookup_insert_ne in Hb by done. by eapply Hids.
  - intros b this' i Hb Hi. destruct (decide (a = b)) as [<-|Hne].
    + rewrite lookup_insert_eq in Hb. injection Hb as <-. simpl in *.
      destruct (decide (next_id_ this = i)) as [<-|Hni].
      * exists ret. by rewrite lookup_insert_eq.
      * rewrite lookup_insert_ne in Hi by done.
        destruct (Hheld a this i Ha Hi) as [p Hp]. exists p.
        rewrite lookup_insert_ne; [done|]. intros ->. by eapply Hfree.
    + rewrite lookup_insert_ne in Hb by done.
      destruct (Hheld b this' i Hb Hi) as [p Hp]. exists p.
      rewrite lookup_insert_ne; [done|]. intros ->. by eapply Hfree.
  - intros p b i this' Hp Hb. destruct (decide (ret = p)) as [<-|Hnp].
    + rewrite lookup_insert_eq in Hp. injection Hp as <- <-.
      rewrite lookup_insert_eq in Hb. injection Hb as <-. simpl.
      rewrite lookup_insert_eq. by eexists.
    + rewrite lookup_insert_ne in Hp by done.
      destruct (decide (a = b)) as [<-|Hne].
      * rewrite lookup_insert_eq in Hb. injection Hb as <-. simpl.
        pose proof (Hlive p a i this Hp Ha) as Hi.
        destruct (decide (next_id_ this = i)) as [<-|Hni].
        -- rewrite lookup_insert_eq. by eexists.
        -- by rewrite lookup_insert_ne.
      * rewrite lookup_insert_ne in Hb by done. by eapply Hlive.
  - intros p q b i Hp Hq.
    destruct (decide (ret = p)) as [<-|Hnp]; destruct (decide (ret = q)) as [<-|Hnq];
      [done| | |].
    + rewrite lookup_insert_eq in Hp. injection Hp as <- <-.
      rewrite lookup_insert_ne in Hq by done.
      pose proof (Hlive q a _ this Hq Ha) as Hi.
      specialize (Hids a this _ Ha Hi). lia.
    + rewrite lookup_insert_eq in Hq. injection Hq as <- <-.
      rewrite lookup_insert_ne in Hp by done.
      pose proof (Hlive p a _ this Hp Ha) as Hi.
      specialize (Hids a this _ Ha Hi). lia.
    + rewrite lookup_insert_ne in Hp, Hq by done. by eapply Huniq.
Qed.

Lemma erase_listener_handles (s : Subscription) w :
  handles (erase_listener s w) = handles w.
Proof.
  unfold erase_listener. destruct (owner_ s) as [a|]; [|done].
  by destruct (atoms w !! a).
Qed.

(** Erasing the listener of the handle at [p] and taking the binding
    away from [p], whatever else happens to the object at [p]. *)
Lemma tidy_released w (s : Subscription) p (h' : gmap addr Subscription) :
  tidy w →
  handles w !! p = Some s →
  (∀ q, q ≠ p → h' !! q = handles w !! q) →
  (∀ b i, h' !! p ≠ Some (mkSubscription (Some b) i)) →
  tidy (with_handles h' (erase_listener s w)).
Proof.
  intros [Hcells Howner Hids Hheld Hlive Huniq] Hp Hsame Hunbound.
  assert (∀ q b i, h' !! q = Some (mkSubscription (Some b) i) →
            q ≠ p ∧ handles w !! q = Some (mkSubscription (Some b) i)) as Hold.
  { intros q b i Hq. destruct (decide (q = p)) as [->|Hne].
    - by destruct (Hunbound b i).
    - by rewrite <- Hsame. }
  destruct s as [[a|] i0]; unfold erase_listener; simpl.
  2:{ split; unfold bound in *; simpl; try done.
      - intros q b i Hq. destruct (Hold q b i Hq) as [_ Hq']. by eapply Howner.
      - intros b this i Hb Hi. destruct (Hheld b this i Hb Hi) as [q Hq].
        exists q. rewrite Hsame; [done|]. intros ->. congruence.
      - intros q b i this Hq Hb. destruct (Hold q b i Hq) as [_ Hq'].
        by eapply Hlive.
      - intros q1 q2 b i Hq1 Hq2. destruct (Hold q1 b i Hq1) as [_ Hq1'].
        destruct (Hold q2 b i Hq2) as [_ Hq2']. by eapply Huniq. }
  destruct (atoms w !! a) as [atom|] eqn:Ha.
  2:{ split; unfold bound in *; simpl; try done.
      - intros q b i Hq. destruct (Hold q b i Hq) as [_ Hq']. by eapply Howner.
      - intros b this i Hb Hi. destruct (Hheld b this i Hb Hi) as [q Hq].
        exists q. rewrite Hsame; [done|]. intros ->. congruence.
      - intros q b i this Hq Hb. destruct (Hold q b i Hq) as [_ Hq'].
        by eapply Hlive.
      - intros q1 q2 b i Hq1 Hq2. destruct (Hold q1 b i Hq1) as [_ Hq1'].
        destruct (Hold q2 b i Hq2) as [_ Hq2']. by eapply Huniq. }
  split; unfold bound in *; simpl.
  - intros b [x Hx]. apply Hcells. destruct (decide (a = b)) as [<-|Hne].
    + by eexists.
    + rewrite lookup_insert_ne in Hx by done. by eexists.
  - intros q b i Hq. destruct (Hold q b i Hq) as [_ Hq']. by eapply Howner.
  - intros b this i Hb Hi. destruct (decide (a = b)) as [<-|Hne].
    + rewrite lookup_insert_eq in Hb. injection Hb as <-. simpl in *.
      destruct Hi as [c Hc]. apply lookup_delete_Some in Hc as [_ Hc].
      eapply Hids; [done|]. by eexists.
    + rewrite lookup_insert_ne in Hb by done. by eapply Hids.
  - intros b this i Hb Hi. destruct (decide (a = b)) as [<-|Hne].
    + rewrite lookup_insert_eq in Hb. injection Hb as <-. simpl in *.
      destruct Hi as [c Hc]. apply lookup_delete_Some in Hc as [Hi0 Hc].
      destruct (Hheld a atom i Ha (mk_is_Some _ _ Hc)) as [q Hq].
      exists q. rewrite Hsame; [done|]. intros ->. congruence.
    + rewrite lookup_insert_ne in Hb by done.
      destruct (Hheld b this i Hb Hi) as [q Hq].
      exists q. rewrite Hsame; [done|]. intros ->. congruence.
  - intros q b i this Hq Hb. destruct (Hold q b i Hq) as [Hqp Hq'].
    destruct (decide (a = b)) as [<-|Hne].
    + rewrite lookup_insert_eq in Hb. injection Hb as <-. simpl.
      destruct (Hlive q a i atom Hq' Ha) as [c Hc]. exists c.
      apply lookup_delete_Some. split; [|done].
      intros <-. apply Hqp. by eapply Huniq.
    + rewrite lookup_insert_ne in Hb by done. by eapply Hlive.
  - intros q1 q2 b i Hq1 Hq2. destruct (Hold q1 b i Hq1) as [_ Hq1'].
    destruct (Hold q2 b i Hq2) as [_ Hq2']. by eapply Huniq.
Qed.

(** Handing the fields of the handle at [other] over to an address
    [this] that holds no binding. *)
Lemma tidy_transferred w this other (o : Subscription) :
  tidy w →
  handles w !! other = Some o →
  this ≠ other →
  (∀ b i, handles w !! this ≠ Some (mkSubscription (Some b) i)) →
  tidy (with_handles
          (<[other := mkSubscription None 0]>
             (<[this := mkSubscription (owner_ o) (id_ o)]> (handles w))) w).
Proof.
  intros [Hcells Howner Hids Hheld Hlive Huniq] Ho Hne Hunbound.
  destruct o as [oo oi]. simpl.
  assert (∀ q b i,
            <[other := mkSubscription None 0]>
              (<[this := mkSubscription oo oi]> (handles w)) !! q
              = Some (mkSubscription (Some b) i) →
            (q = this ∧ handles w !! other = Some (mkSubscription (Some b) i))
            ∨ (q ≠ this ∧ q ≠ other
               ∧ handles w !! q = Some (mkSubscription (Some b) i))) as Hold.
  { intros q b i Hq. destruct (decide (other = q)) as [<-|Hqo].
    { by rewrite lookup_insert_eq in Hq. }
    rewrite lookup_insert_ne in Hq by done.
    destruct (decide (this = q)) as [<-|Hqt].
    - rewrite lookup_insert_eq in Hq. injection Hq as -> ->. by left.
    - rewrite lookup_insert_ne in Hq by done. right. by repeat split. }
  split; unfold bound in *; simpl; try done.
  - intros q b i Hq. destruct (Hold q b i Hq) as [[_ H]|(_ & _ & H)];
      by eapply Howner.
  - intros b this' i Hb Hi. destruct (Hheld b this' i Hb Hi) as [q Hq].
    destruct (decide (q = other)) as [->|Hqo].
    + exists this. rewrite lookup_insert_ne, lookup_insert_eq by done.
      congruence.
    + exists q. rewrite lookup_insert_ne by done.
      rewrite lookup_insert_ne; [done|]. intros <-. by eapply Hunbound.
  - intros q b i this' Hq Hb.
    destruct (Hold q b i Hq) as [[_ H]|(_ & _ & H)]; by eapply Hlive.
  - intros q1 q2 b i Hq1 Hq2.
    destruct (Hold q1 b i Hq1) as [[-> H1]|(Ht1 & Ho1 & H1)];
      destruct (Hold q2 b i Hq2) as [[-> H2]|(Ht2 & Ho2 & H2)]; try done.
    + destruct Ho2. by eapply Huniq.
    + destruct Ho1. by eapply Huniq.
    + by eapply Huniq.
Qed.

(** X4 ([createAtom]).  In a tidy store a new cell gets a location that
    no cell occupies and no handle refers to; it holds the initial
    value and an empty registry; every other cell and every handle is
    as it was; and the store stays tidy. *)
Theorem createAtom_is_fresh (initial : T) (onError : option sink) w :
  tidy w →
  atoms w !! (createAtom initial onError w).1 = None
  ∧ (∀ p i, ¬ bound w p (createAtom initial onError w).1 i)
  ∧ get (createAtom initial onError w).1 (createAtom initial onError w).2
      = Some initial
  ∧ registry (createAtom initial onError w).1 (createAtom initial onError w).2
      = Some ∅
  ∧ (∀ b, b ≠ (createAtom initial onError w).1 →
          atoms (createAtom initial onError w).2 !! b = atoms w !! b)
  ∧ handles (createAtom initial onError w).2 = handles w
  ∧ tidy (createAtom initial onError w).2.
Proof.
  intros Htidy. simpl. split; [|split; [|split; [|split; [|split; [|split]]]]].
  - destruct (atoms w !! next_loc w) as [x|] eqn:Hx; [|done].
    pose proof (tidy_cells w Htidy (next_loc w) (mk_is_Some _ _ Hx)). lia.
  - intros p i Hp. pose proof (tidy_owner w Htidy p _ i Hp). lia.
  - unfold get. simpl. by rewrite lookup_insert_eq.
  - unfold registry. simpl. by rewrite lookup_insert_eq.
  - intros b Hb. by rewrite lookup_insert_ne.
  - done.
  - by apply (tidy_createAtom initial onError).
Qed.

(** X5 ([subscribe] takes an unused identifier).  In a tidy store, on a
    live cell whose counter is not at its last value and with free
    storage for the handle, [subscribe] succeeds; the identifier it
    hands out was not registered, so the registry is the old one plus
    one entry and no listener is replaced; the handle is bound to that
    identifier; and the store stays tidy. *)
Theorem subscribe_takes_unused_id a cb ret w this :
  tidy w →
  atoms w !! a = Some this →
  handles w !! ret = None →
  next_id_ this + 1 < uint64_modulus →
  ∃ w',
    subscribe a cb ret w = Some w'
    ∧ listeners_ this !! next_id_ this = None
    ∧ registry a w' = Some (<[next_id_ this := cb]> (listeners_ this))
    ∧ size (<[next_id_ this := cb]> (listeners_ this))
        = S (size (listeners_ this))
    ∧ bound w' ret a (next_id_ this)
    ∧ tidy w'.
Proof.
  intros Htidy Ha Hret Hroom.
  assert (listeners_ this !! next_id_ this = None) as Hunused.
  { destruct (listeners_ this !! next_id_ this) as [c|] eqn:Hc; [|done].
    pose proof (tidy_ids w Htidy a this _ Ha (mk_is_Some _ _ Hc)). lia. }
  assert (∃ w', subscribe a cb ret w = Some w') as [w' Hsub].
  { unfold subscribe. rewrite Ha, Hret. by eexists. }
  exists w'. split; [done|]. split; [done|].
  pose proof (tidy_subscribe a cb ret w this w' Htidy Ha Hroom Hsub) as Htidy'.
  unfold subscribe in Hsub. rewrite Ha, Hret in Hsub. injection Hsub as <-.
  unfold registry, bound. simpl. rewrite !lookup_insert_eq. simpl.
  split; [done|]. split; [by apply map_size_insert_None|]. done.
Qed.

(** X6 ([subscribe], then a write).  [subscribe] on a live cell leaves
    the value of the cell alone, and the next accepted [set] or [update]
    that returns calls the new listener exactly once, with the value
    stored. *)
Theorem subscribe_then_write_delivers a cb ret w this rq v :
  atoms w !! a = Some this →
  handles w !! ret = None →
  proposed rq (value_ this) = inr v →
  skip_equal eqT v (value_ this) = false →
  ∃ w',
    subscribe a cb ret w = Some w'
    ∧ get a w' = Some (value_ this)
    ∧ (res_outcome (perform a rq w') = Returned →
       calls_of (next_id_ this) (res_log (perform a rq w')) = [(cb, v)]).
Proof.
  intros Ha Hret Hprop Hskip. unfold subscribe. rewrite Ha, Hret.
  eexists. split; [done|].
  split; [unfold get; simpl; by rewrite lookup_insert_eq|].
  match goal with
  | |- context [perform a rq ?w1] =>
      rewrite (perform_accepted eqT bucket_order invoke invoke_sink a rq w1
                 (mkAtom (value_ this) (<[next_id_ this := cb]> (listeners_ this))
                         (uint64_succ (next_id_ this)) (on_error_ this)) v)
  end.
  - unfold notify. simpl. intros Hreturned.
    apply notify_loop_calls; [apply order_NoDup|done|].
    apply order_elem_of. by rewrite lookup_insert_eq.
  - simpl. by rewrite lookup_insert_eq.
  - by split.
Qed.

(** X7 ([subscribe] and release, round trip).  In a tidy store,
    subscribing to a live cell and then releasing the returned handle,
    by [unsubscribe] or by the destructor, leaves every cell as it was
    except that the identifier counter of the cell has advanced. *)
Theorem subscribe_release_round_trip a cb ret w this :
  tidy w →
  atoms w !! a = Some this →
  handles w !! ret = None →
  ∃ w1 w2 w3,
    subscribe a cb ret w = Some w1
    ∧ unsubscribe ret w1 = Some w2
    ∧ destroy ret w1 = Some w3
    ∧ atoms w2 = <[a := mkAtom (value_ this) (listeners_ this)
                               (uint64_succ (next_id_ this)) (on_error_ this)]>
                   (atoms w)
    ∧ atoms w3 = atoms w2
    ∧ handles w3 = handles w.
Proof.
  intros Htidy Ha Hret.
  assert (listeners_ this !! next_id_ this = None) as Hunused.
  { destruct (listeners_ this !! next_id_ this) as [c|] eqn:Hc; [|done].
    pose proof (tidy_ids w Htidy a this _ Ha (mk_is_Some _ _ Hc)). lia. }
  unfold subscribe. rewrite Ha, Hret. eexists _, _, _. split; [done|].
  unfold unsubscribe, destroy. simpl. rewrite lookup_insert_eq.
  split; [done|]. split; [done|].
  unfold erase_listener. simpl. rewrite lookup_insert_eq. simpl.
  unfold erase. simpl. rewrite delete_insert_eq, insert_insert_eq.
  rewrite (delete_id (listeners_ this)) by done.
  split; [done|]. split; [done|].
  rewrite delete_insert_eq. by apply delete_id.
Qed.

Lemma tidy_unsubscribe p w w' : tidy w → unsubscribe p w = Some w' → tidy w'.
Proof.
  intros Htidy. unfold unsubscribe.
  destruct (handles w !! p) as [s|] eqn:Hp; [|done]. intros [= <-].
  apply (tidy_released w s p); [done|done| |].
  - intros q Hq. by rewrite lookup_insert_ne, erase_listener_handles.
  - intros b i. by rewrite lookup_insert_eq.
Qed.

Lemma tidy_destroy p w w' : tidy w → destroy p w = Some w' → tidy w'.
Proof.
  intros Htidy. unfold destroy.
  destruct (handles w !! p) as [s|] eqn:Hp; [|done]. intros [= <-].
  apply (tidy_released w s p); [done|done| |].
  - intros q Hq. by rewrite lookup_delete_ne, erase_listener_handles.
  - intros b i. by rewrite lookup_delete_eq.
Qed.

Lemma tidy_move_construct this other w w' :
  tidy w → move_construct this other w = Some w' → tidy w'.
Proof.
  intros Htidy. unfold move_construct.
  destruct (handles w !! this) as [?|] eqn:Hthis; [done|].
  destruct (handles w !! other) as [o|] eqn:Hother; [|done].
  intros [= <-].
  assert (this ≠ other) as Hne by congruence.
  apply (tidy_transferred w this other o Htidy Hother Hne).
  intros b i. by rewrite Hthis.
Qed.

Lemma tidy_move_assign this other w w' :
  tidy w → move_assign this other w = Some w' → tidy w'.
Proof.
  intros Htidy. unfold move_assign.
  destruct (handles w !! this) as [s|] eqn:Hthis; [|done].
  destruct (handles w !! other) as [o|] eqn:Hother; [|done].
  case_decide as Hne; [by intros [= <-]|]. intros [= <-].
  assert (tidy (with_handles (<[this := mkSubscription None 0]> (handles w))
                             (erase_listener s w))) as Htidy1.
  { apply (tidy_released w s this); [done|done| |].
    - intros q Hq. by rewrite lookup_insert_ne.
    - intros b i. by rewrite lookup_insert_eq. }
  pose proof (tidy_transferred _ this other o Htidy1) as Hmoved.
  simpl in Hmoved. rewrite insert_insert_eq in Hmoved.
  rewrite erase_listener_handles. apply Hmoved; [|done|].
  - by rewrite lookup_insert_ne.
  - intros b i. by rewrite lookup_insert_eq.
Qed.

Lemma tidy_construct p id w w' :
  tidy w → construct p None id w = Some w' → tidy w'.
Proof.
  intros Htidy. unfold construct.
  destruct (handles w !! p) as [?|] eqn:Hp; [done|]. intros [= <-].
  destruct Htidy as [Hcells Howner Hids Hheld Hlive Huniq].
  assert (∀ q b i, <[p := mkSubscription None id]> (handles w) !! q
                     = Some (mkSubscription (Some b) i) →
                   handles w !! q = Some (mkSubscription (Some b) i)) as Hold.
  { intros q b i Hq. destruct (decide (p = q)) as [<-|Hne].
    - by rewrite lookup_insert_eq in Hq.
    - by rewrite lookup_insert_ne in Hq. }
  split; unfold bound in *; simpl; try done.
  - intros q b i Hq. eapply Howner. by apply Hold.
  - intros b this i Hb Hi. destruct (Hheld b this i Hb Hi) as [q Hq].
    exists q. rewrite lookup_insert_ne; [done|]. intros ->. congruence.
  - intros q b i this Hq Hb. eapply Hlive; [|done]. by apply Hold.
  - intros q1 q2 b i Hq1 Hq2. eapply Huniq; by apply Hold.
Qed.

(** X8 (releases keep the store tidy).  In a tidy store, whenever
    [unsubscribe] or the destructor returns, it leaves the store tidy:
    no listener is left without a handle, and no handle stays bound to
    a listener that is gone. *)
Theorem release_keeps_tidy p w :
  tidy w →
  (∀ w', unsubscribe p w = Some w' → tidy w')
  ∧ (∀ w', destroy p w = Some w' → tidy w').
Proof.
  intros Htidy. split.
  - intros w'. by apply tidy_unsubscribe.
  - intros w'. by apply tidy_destroy.
Qed.

(** X9 (moves keep the store tidy).  In a tidy store a move construction,
    a move assignment (onto itself included) and the construction of a
    placeholder with an empty reference, whenever they succeed, leave
    the store tidy: a binding is handed over, never duplicated or
    lost. *)
Theorem moves_keep_tidy w :
  tidy w →
  (∀ this other w', move_construct this other w = Some w' → tidy w')
  ∧ (∀ this other w', move_assign this other w = Some w' → tidy w')
  ∧ (∀ p id w', construct p None id w = Some w' → tidy w').
Proof.
  intros Htidy. split; [|split].
  - intros this other w'. by apply tidy_move_construct.
  - intros this other w'. by apply tidy_move_assign.
  - intros p id w'. by apply tidy_construct.
Qed.

(** X10 (writes keep the store tidy).  When the listeners and the handler
    keep the store tidy, so do [set] and [update], however they end. *)
Theorem writes_keep_tidy a rq w :
  (∀ c x w', tidy w' → tidy (invoke c x w').2) →
  (∀ s e w', tidy w' → tidy (invoke_sink s e w').2) →
  tidy w →
  tidy (res_world (perform a rq w)).
Proof.
  intros Hcb Hsink Htidy.
  destruct (atoms w !! a) as [this|] eqn:Ha.
  2:{ by rewrite (perform_dead a rq w Ha). }
  destruct (proposed rq (value_ this)) as [e|v] eqn:Hprop.
  { by rewrite (perform_threw a rq w this e Ha Hprop). }
  destruct (skip_equal eqT v (value_ this)) eqn:Hskip.
  { by rewrite (perform_skipped a rq w this v Ha Hprop Hskip). }
  rewrite (perform_accepted eqT bucket_order invoke invoke_sink a rq w this v
             Ha (conj Hprop Hskip)).
  unfold notify. apply (notify_loop_preserves invoke invoke_sink tidy);
    [done|done|]. by apply tidy_stored.
Qed.

(** X11 ([sub = atom->subscribe(cb)]).  In a tidy store, let the holder
    [p] be bound to listener [i] of the live cell [a].  Subscribing
    [cb] into a temporary, move-assigning the temporary into [p] and
    destroying the temporary all succeed; afterwards the registry of
    [a] is the old one with [i] erased and [cb] added under the new
    identifier, [p] is bound to the new identifier, no other handle
    has changed, and the store is tidy. *)
Theorem assigning_a_new_subscription a cb p i tmp w this :
  tidy w →
  bound w p a i →
  atoms w !! a = Some this →
  handles w !! tmp = None →
  next_id_ this + 1 < uint64_modulus →
  ∃ w1 w2 w3,
    subscribe a cb tmp w = Some w1
    ∧ move_assign p tmp w1 = Some w2
    ∧ destroy tmp w2 = Some w3
    ∧ registry a w3
        = Some (<[next_id_ this := cb]> (delete i (listeners_ this)))
    ∧ handles w3 = <[p := mkSubscription (Some a) (next_id_ this)]> (handles w)
    ∧ tidy w3.
Proof.
  intros Htidy Hp Ha Htmp Hroom.
  assert (p ≠ tmp) as Hne by (unfold bound in Hp; congruence).
  assert (i ≠ next_id_ this) as Hi.
  { pose proof (tidy_live w Htidy p a i this Hp Ha) as Hreg.
    pose proof (tidy_ids w Htidy a this i Ha Hreg). lia. }
  assert (∃ w1, subscribe a cb tmp w = Some w1) as [w1 H1].
  { unfold subscribe. rewrite Ha, Htmp. by eexists. }
  pose proof (tidy_subscribe a cb tmp w this w1 Htidy Ha Hroom H1) as Htidy1.
  assert (∃ w2, move_assign p tmp w1 = Some w2) as [w2 H2].
  { unfold subscribe in H1. rewrite Ha, Htmp in H1. injection H1 as <-.
    unfold move_assign. simpl.
    rewrite lookup_insert_ne, Hp, lookup_insert_eq by done.
    rewrite decide_False by done. by eexists. }
  pose proof (tidy_move_assign p tmp w1 w2 Htidy1 H2) as Htidy2.
  assert (∃ w3, destroy tmp w2 = Some w3) as [w3 H3].
  { unfold subscribe in H1. rewrite Ha, Htmp in H1. injection H1 as <-.
    unfold move_assign in H2. simpl in H2.
    rewrite lookup_insert_ne, Hp, lookup_insert_eq in H2 by done.
    rewrite decide_False in H2 by done. injection H2 as <-.
    unfold destroy. simpl. rewrite lookup_insert_eq. by eexists. }
  pose proof (tidy_destroy tmp w2 w3 Htidy2 H3) as Htidy3.
  exists w1, w2, w3. split; [done|]. split; [done|]. split; [done|].
  split; [|split; [|done]].
  - unfold subscribe in H1. rewrite Ha, Htmp in H1. injection H1 as <-.
    unfold move_assign in H2. simpl in H2.
    rewrite lookup_insert_ne, Hp, lookup_insert_eq in H2 by done.
    rewrite decide_False in H2 by done. injection H2 as <-.
    unfold destroy in H3. simpl in H3. rewrite lookup_insert_eq in H3.
    injection H3 as <-.
    unfold registry, erase_listener. simpl. rewrite lookup_insert_eq. simpl.
    rewrite lookup_insert_eq. simpl. by rewrite delete_insert_ne.
  - unfold subscribe in H1. rewrite Ha, Htmp in H1. injection H1 as <-.
    unfold move_assign in H2. simpl in H2.
    rewrite lookup_insert_ne, Hp, lookup_insert_eq in H2 by done.
    rewrite decide_False in H2 by done. injection H2 as <-.
    unfold destroy in H3. simpl in H3. rewrite lookup_insert_eq in H3.
    injection H3 as <-. simpl.
    rewrite !erase_listener_handles. simpl.
    rewrite delete_insert_eq, delete_insert_ne, delete_insert_eq by done.
    by rewrite delete_id.
Qed.

(** X12 (the identifier counter wraps).  On a live cell whose counter is
    at the last 64-bit value, [subscribe] hands out that value and the
    counter goes back to 0; the following [subscribe] hands out 0
    again.  When a listener is still registered under 0, it is replaced
    by the new one, the handle that was bound to it stays bound to 0,
    and releasing that older handle erases the new listener. *)
Theorem identifier_counter_wraps a cb1 cb2 r1 r2 p w this old :
  atoms w !! a = Some this →
  next_id_ this = uint64_modulus - 1 →
  listeners_ this !! 0 = Some old →
  bound w p a 0 →
  handles w !! r1 = None →
  handles w !! r2 = None →
  r1 ≠ r2 →
  ∃ w1 w2 w3,
    subscribe a cb1 r1 w = Some w1
    ∧ bound w1 r1 a (uint64_modulus - 1)
    ∧ subscribe a cb2 r2 w1 = Some w2
    ∧ bound w2 r2 a 0
    ∧ bound w2 p a 0
    ∧ registry a w2 ≫= (.!! 0) = Some cb2
    ∧ unsubscribe p w2 = Some w3
    ∧ registry a w3 ≫= (.!! 0) = None
    ∧ bound w3 r2 a 0.
Proof.
  intros Ha Hlast Hold Hp Hr1 Hr2 Hne.
  assert (p ≠ r1) as Hp1 by (unfold bound in Hp; congruence).
  assert (p ≠ r2) as Hp2 by (unfold bound in Hp; congruence).
  unfold subscribe at 1. rewrite Ha, Hr1, Hlast.
  eexists _, _, _. split; [done|].
  split; [unfold bound; simpl; by rewrite lookup_insert_eq|].
  unfold subscribe. simpl. rewrite lookup_insert_eq.
  rewrite lookup_insert_ne, Hr2 by done. simpl.
  replace (uint64_succ (uint64_modulus - 1)) with 0 by done.
  split; [done|].
  split; [unfold bound; simpl; by rewrite lookup_insert_eq|].
  split; [unfold bound; simpl; by rewrite !lookup_insert_ne|].
  split; [unfold registry; simpl; rewrite lookup_insert_eq; simpl;
          by rewrite lookup_insert_eq|].
  unfold unsubscribe. simpl. rewrite !lookup_insert_ne by done.
  unfold bound in Hp. rewrite Hp. split; [done|].
  unfold erase_listener, registry, bound. simpl. rewrite lookup_insert_eq. simpl.
  rewrite lookup_insert_eq. simpl. rewrite lookup_delete_eq.
  split; [done|]. by rewrite lookup_insert_ne, lookup_insert_eq.
Qed.

End More.

(** * The further properties at work *)

Lemma counter_is_tidy : tidy Plain.counter.
Proof.
  assert (tidy (createAtom 10%Z (Some ()) Plain.empty).2) as H0.
  { apply tidy_createAtom. apply tidy_empty. }
  assert (tidy (default (createAtom 10%Z (Some ()) Plain.empty).2
                  (subscribe 0%nat Plain.quiet 1%nat
                     (createAtom 10%Z (Some ()) Plain.empty).2))) as H1.
  { apply (tidy_subscribe 0%nat Plain.quiet 1%nat
             (createAtom 10%Z (Some ()) Plain.empty).2
             (mkAtom 10%Z ∅ 0 (Some ()))); [exact H0| | |].
    - vm_compute; reflexivity.
    - vm_compute; reflexivity.
    - vm_compute; reflexivity. }
  apply (tidy_subscribe 0%nat Plain.picky 2%nat _
           (mkAtom 10%Z (<[0 := Plain.quiet]> ∅) 1 (Some ()))
           Plain.counter H1).
  - vm_compute; reflexivity.
  - vm_compute; reflexivity.
  - vm_compute; reflexivity.
Qed.

(** The dispatch of 5 over the registry of the [hostile] cell: the
    exception that leaves is the one the handler threw when it was
    handed the listener's. *)
Lemma notify_throws_only_from_the_handler_witness :
  res_outcome (notify forward_order (Scripted.call 3) (Scripted.call_sink 3)
                 (Some Scripted.testErrorHandler)
                 (listeners_ Scripted.hostile_atom) 5%Z Scripted.hostile)
    = Threw (Scripted.Foreign 42)
  ∧ ∃ s id cb e0 pre,
      Some Scripted.testErrorHandler = Some s
      ∧ listeners_ Scripted.hostile_atom !! id = Some cb
      ∧ res_log (notify forward_order (Scripted.call 3) (Scripted.call_sink 3)
                   (Some Scripted.testErrorHandler)
                   (listeners_ Scripted.hostile_atom) 5%Z Scripted.hostile)
          = pre ++ [Called id cb 5%Z (Threw e0);
                    Sunk s e0 (Threw (Scripted.Foreign 42))].
Proof.
  assert (res_outcome
            (notify forward_order (Scripted.call 3) (Scripted.call_sink 3)
               (Some Scripted.testErrorHandler)
               (listeners_ Scripted.hostile_atom) 5%Z Scripted.hostile)
            = Threw (Scripted.Foreign 42)) as H1
    by (vm_compute; reflexivity).
  split; [exact H1|].
  exact (notify_throws_only_from_the_handler forward_order (Scripted.call 3)
           (Scripted.call_sink 3) (Some Scripted.testErrorHandler)
           (listeners_ Scripted.hostile_atom) 5%Z Scripted.hostile
           (Scripted.Foreign 42) H1).
Defined.

(** [set(3)] on the [counter] cell, then [get]. *)
Lemma get_after_set_witness :
  (∀ c x w', get 0%nat (Plain.call c x w').2 = get 0%nat w')
  ∧ (∀ s e w', get 0%nat (Plain.call_sink s e w').2 = get 0%nat w')
  ∧ atoms Plain.counter !! 0%nat = Some Plain.counter_atom
  ∧ get 0%nat (res_world (set (Some Z.eqb) forward_order Plain.call
                              Plain.call_sink 0%nat 3%Z Plain.counter))
      = Some (if skip_equal (Some Z.eqb) 3%Z (value_ Plain.counter_atom)
              then value_ Plain.counter_atom else 3%Z).
Proof.
  assert (∀ c x w', get 0%nat (Plain.call c x w').2 = get 0%nat w') as H1.
  { intros c x w'. unfold Plain.call. destruct (c x); reflexivity. }
  assert (∀ s e w', get 0%nat (Plain.call_sink s e w').2 = get 0%nat w') as H2.
  { intros s e w'. reflexivity. }
  assert (atoms Plain.counter !! 0%nat = Some Plain.counter_atom) as H3
    by (vm_compute; reflexivity).
  split; [exact H1|]. split; [exact H2|]. split; [exact H3|].
  exact (get_after_set (Some Z.eqb) forward_order Plain.call Plain.call_sink
           0%nat 3%Z Plain.counter Plain.counter_atom H1 H2 H3).
Defined.

(** [set(5); set(5); update(v + 10)] on the [counter] cell, which holds
    10: the stored values are 5 and 15, and the first listener receives
    exactly these. *)
Lemma listener_sees_the_changes_witness :
  (∀ c x w', (Plain.call c x w').2 = w' ∧ (Plain.call c x w').1 ≠ NoResult)
  ∧ (∀ s e w', Plain.call_sink s e w' = (Returned, w'))
  ∧ atoms Plain.counter !! 0%nat = Some Plain.counter_atom
  ∧ listeners_ Plain.counter_atom !! 0 = Some Plain.quiet
  ∧ changes (Some Z.eqb) (value_ Plain.counter_atom) Plain.errands
      = [5%Z; 15%Z]
  ∧ calls_of 0
      (res_log (perform_seq (Some Z.eqb) forward_order Plain.call
                  Plain.call_sink 0%nat Plain.errands Plain.counter))
      = (λ v, (Plain.quiet, v)) <$>
          changes (Some Z.eqb) (value_ Plain.counter_atom) Plain.errands
  ∧ get 0%nat
      (res_world (perform_seq (Some Z.eqb) forward_order Plain.call
                    Plain.call_sink 0%nat Plain.errands Plain.counter))
      = Some (default (value_ Plain.counter_atom)
                (last (changes (Some Z.eqb) (value_ Plain.counter_atom)
                         Plain.errands))).
Proof.
  assert (∀ c x w', (Plain.call c x w').2 = w'
                    ∧ (Plain.call c x w').1 ≠ NoResult) as H1.
  { intros c x w'. unfold Plain.call. destruct (c x); split; done. }
  assert (∀ s e w', Plain.call_sink s e w' = (Returned, w')) as H2.
  { intros s e w'. reflexivity. }
  assert (atoms Plain.counter !! 0%nat = Some Plain.counter_atom) as H3
    by (vm_compute; reflexivity).
  assert (listeners_ Plain.counter_atom !! 0 = Some Plain.quiet) as H4
    by (vm_compute; reflexivity).
  split; [exact H1|]. split; [exact H2|]. split; [exact H3|].
  split; [exact H4|]. split; [vm_compute; reflexivity|].
  exact (listener_sees_the_changes (Some Z.eqb) forward_order Plain.call
           Plain.call_sink 0%nat Plain.errands Plain.counter
           Plain.counter_atom 0 Plain.quiet H1 H2 H3 H4).
Defined.

(** A second cell next to the [counter] cell. *)
Lemma createAtom_is_fresh_witness :
  tidy Plain.counter
  ∧ atoms Plain.counter !! (createAtom 7%Z None Plain.counter).1 = None
  ∧ (∀ p i, ¬ bound Plain.counter p (createAtom 7%Z None Plain.counter).1 i)
  ∧ get (createAtom 7%Z None Plain.counter).1
        (createAtom 7%Z None Plain.counter).2 = Some 7%Z
  ∧ registry (createAtom 7%Z None Plain.counter).1
             (createAtom 7%Z None Plain.counter).2 = Some ∅
  ∧ (∀ b, b ≠ (createAtom 7%Z None Plain.counter).1 →
          atoms (createAtom 7%Z None Plain.counter).2 !! b
            = atoms Plain.counter !! b)
  ∧ handles (createAtom 7%Z None Plain.counter).2 = handles Plain.counter
  ∧ tidy (createAtom 7%Z None Plain.counter).2.
Proof.
  split; [exact counter_is_tidy|].
  exact (createAtom_is_fresh 7%Z None Plain.counter counter_is_tidy).
Defined.

(** A third listener on the [counter] cell gets identifier 2. *)
Lemma subscribe_takes_unused_id_witness :
  tidy Plain.counter
  ∧ atoms Plain.counter !! 0%nat = Some Plain.counter_atom
  ∧ handles Plain.counter !! 5%nat = None
  ∧ next_id_ Plain.counter_atom + 1 < uint64_modulus
  ∧ ∃ w',
      subscribe 0%nat Plain.picky 5%nat Plain.counter = Some w'
      ∧ listeners_ Plain.counter_atom !! next_id_ Plain.counter_atom = None
      ∧ registry 0%nat w'
          = Some (<[next_id_ Plain.counter_atom := Plain.picky]>
                    (listeners_ Plain.counter_atom))
      ∧ size (<[next_id_ Plain.counter_atom := Plain.picky]>
                (listeners_ Plain.counter_atom))
          = S (size (listeners_ Plain.counter_atom))
      ∧ bound w' 5%nat 0%nat (next_id_ Plain.counter_atom)
      ∧ tidy w'.
Proof.
  assert (atoms Plain.counter !! 0%nat = Some Plain.counter_atom) as H2
    by (vm_compute; reflexivity).
  assert (handles Plain.counter !! 5%nat = None) as H3
    by (vm_compute; reflexivity).
  assert (next_id_ Plain.counter_atom + 1 < uint64_modulus) as H4
    by (vm_compute; reflexivity).
  split; [exact counter_is_tidy|]. split; [exact H2|]. split; [exact H3|].
  split; [exact H4|].
  exact (subscribe_takes_unused_id 0%nat Plain.picky 5%nat Plain.counter
           Plain.counter_atom counter_is_tidy H2 H3 H4).
Defined.

(** A third listener on the [counter] cell, then [set(3)]. *)
Lemma subscribe_then_write_delivers_witness :
  atoms Plain.counter !! 0%nat = Some Plain.counter_atom
  ∧ handles Plain.counter !! 5%nat = None
  ∧ proposed (Assign 3%Z : request Z string) (value_ Plain.counter_atom)
      = inr 3%Z
  ∧ skip_equal (Some Z.eqb) 3%Z (value_ Plain.counter_atom) = false
  ∧ ∃ w',
      subscribe 0%nat Plain.picky 5%nat Plain.counter = Some w'
      ∧ get 0%nat w' = Some (value_ Plain.counter_atom)
      ∧ (res_outcome (perform (Some Z.eqb) forward_order Plain.call
                        Plain.call_sink 0%nat (Assign 3%Z) w') = Returned →
         calls_of (next_id_ Plain.counter_atom)
           (res_log (perform (Some Z.eqb) forward_order Plain.call
                       Plain.call_sink 0%nat (Assign 3%Z) w'))
           = [(Plain.picky, 3%Z)]).
Proof.
  assert (atoms Plain.counter !! 0%nat = Some Plain.counter_atom) as H1
    by (vm_compute; reflexivity).
  assert (handles Plain.counter !! 5%nat = None) as H2
    by (vm_compute; reflexivity).
  split; [exact H1|]. split; [exact H2|]. split; [reflexivity|].
  split; [reflexivity|].
  exact (subscribe_then_write_delivers (Some Z.eqb) forward_order Plain.call
           Plain.call_sink 0%nat Plain.picky 5%nat Plain.counter
           Plain.counter_atom (Assign 3%Z) 3%Z H1 H2 eq_refl eq_refl).
Defined.

(** Subscribing to the [counter] cell and releasing at once. *)
Lemma subscribe_release_round_trip_witness :
  tidy Plain.counter
  ∧ atoms Plain.counter !! 0%nat = Some Plain.counter_atom
  ∧ handles Plain.counter !! 5%nat = None
  ∧ ∃ w1 w2 w3,
      subscribe 0%nat Plain.picky 5%nat Plain.counter = Some w1
      ∧ unsubscribe 5%nat w1 = Some w2
      ∧ destroy 5%nat w1 = Some w3
      ∧ atoms w2
          = <[0%nat := mkAtom (value_ Plain.counter_atom)
                              (listeners_ Plain.counter_atom)
                              (uint64_succ (next_id_ Plain.counter_atom))
                              (on_error_ Plain.counter_atom)]>
              (atoms Plain.counter)
      ∧ atoms w3 = atoms w2
      ∧ handles w3 = handles Plain.counter.
Proof.
  assert (atoms Plain.counter !! 0%nat = Some Plain.counter_atom) as H2
    by (vm_compute; reflexivity).
  assert (handles Plain.counter !! 5%nat = None) as H3
    by (vm_compute; reflexivity).
  split; [exact counter_is_tidy|]. split; [exact H2|]. split; [exact H3|].
  exact (subscribe_release_round_trip 0%nat Plain.picky 5%nat Plain.counter
           Plain.counter_atom counter_is_tidy H2 H3).
Defined.

(** Releasing the first handle of the [counter] cell, either way. *)
Lemma release_keeps_tidy_witness :
  tidy Plain.counter
  ∧ ∃ w1 w2,
      unsubscribe 1%nat Plain.counter = Some w1
      ∧ destroy 1%nat Plain.counter = Some w2
      ∧ registry 0%nat w1 = Some {[ 1 := Plain.picky ]}
      ∧ registry 0%nat w2 = Some {[ 1 := Plain.picky ]}
      ∧ tidy w1 ∧ tidy w2.
Proof.
  split; [exact counter_is_tidy|].
  destruct (release_keeps_tidy 1%nat Plain.counter counter_is_tidy)
    as [Hunsub Hdestroy].
  eexists _, _.
  split; [vm_compute; reflexivity|]. split; [vm_compute; reflexivity|].
  split; [vm_compute; reflexivity|]. split; [vm_compute; reflexivity|].
  split.
  - apply Hunsub. vm_compute; reflexivity.
  - apply Hdestroy. vm_compute; reflexivity.
Defined.

(** Moving the first handle of the [counter] cell to address 3. *)
Lemma moves_keep_tidy_witness :
  tidy Plain.counter
  ∧ move_construct 3%nat 1%nat Plain.counter = Some Plain.counter_moved
  ∧ tidy Plain.counter_moved.
Proof.
  assert (move_construct 3%nat 1%nat Plain.counter = Some Plain.counter_moved)
    as H2 by (vm_compute; reflexivity).
  split; [exact counter_is_tidy|]. split; [exact H2|].
  exact (proj1 (moves_keep_tidy Plain.counter counter_is_tidy)
           3%nat 1%nat Plain.counter_moved H2).
Defined.

(** [set(3)] on the [counter] cell. *)
Lemma writes_keep_tidy_witness :
  (∀ c x w', tidy w' → tidy (Plain.call c x w').2)
  ∧ (∀ s e w', tidy w' → tidy (Plain.call_sink s e w').2)
  ∧ tidy Plain.counter
  ∧ tidy (res_world (perform (Some Z.eqb) forward_order Plain.call
                       Plain.call_sink 0%nat (Assign 3%Z) Plain.counter)).
Proof.
  assert (∀ c x w', tidy w' → tidy (Plain.call c x w').2) as H1.
  { intros c x w' Hw'. unfold Plain.call. destruct (c x); exact Hw'. }
  assert (∀ s e w', tidy w' → tidy (Plain.call_sink s e w').2) as H2.
  { intros s e w' Hw'. exact Hw'. }
  split; [exact H1|]. split; [exact H2|]. split; [exact counter_is_tidy|].
  exact (writes_keep_tidy (Some Z.eqb) forward_order Plain.call Plain.call_sink
           0%nat (Assign 3%Z) Plain.counter H1 H2 counter_is_tidy).
Defined.

(** [first = atom->subscribe(picky)] on the [counter] cell. *)
Lemma assigning_a_new_subscription_witness :
  tidy Plain.counter
  ∧ bound Plain.counter 1%nat 0%nat 0
  ∧ atoms Plain.counter !! 0%nat = Some Plain.counter_atom
  ∧ handles Plain.counter !! 5%nat = None
  ∧ next_id_ Plain.counter_atom + 1 < uint64_modulus
  ∧ ∃ w1 w2 w3,
      subscribe 0%nat Plain.picky 5%nat Plain.counter = Some w1
      ∧ move_assign 1%nat 5%nat w1 = Some w2
      ∧ destroy 5%nat w2 = Some w3
      ∧ registry 0%nat w3
          = Some (<[next_id_ Plain.counter_atom := Plain.picky]>
                    (delete 0 (listeners_ Plain.counter_atom)))
      ∧ handles w3
          = <[1%nat := mkSubscription (Some 0%nat)
                                      (next_id_ Plain.counter_atom)]>
              (handles Plain.counter)
      ∧ tidy w3.
Proof.
  assert (bound Plain.counter 1%nat 0%nat 0) as H2
    by (vm_compute; reflexivity).
  assert (atoms Plain.counter !! 0%nat = Some Plain.counter_atom) as H3
    by (vm_compute; reflexivity).
  assert (handles Plain.counter !! 5%nat = None) as H4
    by (vm_compute; reflexivity).
  assert (next_id_ Plain.counter_atom + 1 < uint64_modulus) as H5
    by (vm_compute; reflexivity).
  split; [exact counter_is_tidy|]. split; [exact H2|]. split; [exact H3|].
  split; [exact H4|]. split; [exact H5|].
  exact (assigning_a_new_subscription 0%nat Plain.picky 1%nat 0 5%nat
           Plain.counter Plain.counter_atom counter_is_tidy H2 H3 H4 H5).
Defined.

(** Two more subscriptions on the [weary] cell. *)
Lemma identifier_counter_wraps_witness :
  atoms Plain.weary !! 0%nat = Some Plain.weary_atom
  ∧ next_id_ Plain.weary_atom = uint64_modulus - 1
  ∧ listeners_ Plain.weary_atom !! 0 = Some Plain.quiet
  ∧ bound Plain.weary 1%nat 0%nat 0
  ∧ handles Plain.weary !! 2%nat = None
  ∧ handles Plain.weary !! 3%nat = None
  ∧ ∃ w1 w2 w3,
      subscribe 0%nat Plain.picky 2%nat Plain.weary = Some w1
      ∧ bound w1 2%nat 0%nat (uint64_modulus - 1)
      ∧ subscribe 0%nat Plain.picky 3%nat w1 = Some w2
      ∧ bound w2 3%nat 0%nat 0
      ∧ bound w2 1%nat 0%nat 0
      ∧ registry 0%nat w2 ≫= (.!! 0) = Some Plain.picky
      ∧ unsubscribe 1%nat w2 = Some w3
      ∧ registry 0%nat w3 ≫= (.!! 0) = None
      ∧ bound w3 3%nat 0%nat 0.
Proof.
  assert (atoms Plain.weary !! 0%nat = Some Plain.weary_atom) as H1
    by (vm_compute; reflexivity).
  assert (listeners_ Plain.weary_atom !! 0 = Some Plain.quiet) as H3
    by (vm_compute; reflexivity).
  assert (bound Plain.weary 1%nat 0%nat 0) as H4
    by (vm_compute; reflexivity).
  assert (handles Plain.weary !! 2%nat = None) as H5
    by (vm_compute; reflexivity).
  assert (handles Plain.weary !! 3%nat = None) as H6
    by (vm_compute; reflexivity).
  split; [exact H1|]. split; [reflexivity|]. split; [exact H3|].
  split; [exact H4|]. split; [exact H5|]. split; [exact H6|].
  apply (identifier_counter_wraps 0%nat Plain.picky Plain.picky 2%nat 3%nat
           1%nat Plain.weary Plain.weary_atom Plain.quiet H1 eq_refl H3 H4
           H5 H6).
  discriminate.
Defined.
